(** * StuyTown apartment scraper: a shallow embedding of [main.py]

    The development follows the class [StuyTownScraper]: the state file
    ([load_existing_apartments], [save_apartments]), the page enumerator
    ([scroll_to_load_all]), the extractor ([extract_apartments]), the
    notifier ([send_email_notification]) and one monitoring cycle
    ([check_for_new_apartments]).

    Python values that reach the state file are JSON values; a Python
    [dict] keyed by strings is a [gmap string _].  Everything the program
    asks of the outside world (the browser, the disk, the clock, the mail
    server) is an explicit input, and an operation that can raise returns
    an [outcome]. *)

From Stdlib Require Import ZArith String.
From stdpp Require Import gmap strings list fin_maps.
From Equations Require Import Equations.

Set Warnings "-register-all".

(** ** Exceptions *)

(** The subclasses of Python's [Exception] that the calls of the program
    raise.  Every handler of the program is [except Exception], so a
    handler catches each of them. *)
Inductive exn :=
| OSError
| JSONDecodeError
| TypeError
| NoSuchElementException
| TimeoutException
| WebDriverException
| SMTPException.

Inductive outcome (A : Type) :=
| Returns (a : A)
| Raises (e : exn).
Arguments Returns {A} a.
Arguments Raises {A} e.

(** [outcome] with stdpp's monad notation: [x ← c; k] runs [c] and goes
    on with [k] unless [c] raised. *)
#[global] Instance outcome_ret : MRet outcome := λ A a, Returns a.
#[global] Instance outcome_bind : MBind outcome := λ A B k c,
  match c with
  | Returns a => k a
  | Raises e => Raises e
  end.

(** [try: body / except Exception as e: handler e] *)
Definition try_except {A} (body : outcome A) (handler : exn → outcome A)
  : outcome A :=
  match body with
  | Returns a => Returns a
  | Raises e => handler e
  end.

(** ** JSON values

    What [json.load] builds and [json.dump] writes: [None], [bool],
    numbers, [str], [list] and [dict] with string keys.  Numbers are
    integers here; no function of the program tells a float from an
    integer. *)
Inductive json :=
| JNull
| JBool (b : bool)
| JNum (n : Z)
| JStr (s : string)
| JArr (l : list json)
| JObj (m : gmap string json).

(** The empty dictionary [{}]. *)
Definition empty_dict : json := JObj ∅.

(** Python's [len]: defined on [str], [list] and [dict], a [TypeError]
    on [None], [bool] and numbers. *)
Definition len (v : json) : outcome nat :=
  match v with
  | JStr s => Returns (String.length s)
  | JArr l => Returns (length l)
  | JObj m => Returns (size m)
  | JNull | JBool _ | JNum _ => Raises TypeError
  end.

(** ** The state file [apartments.json] *)

(** What is at the path of the state file, as the program meets it: text
    that parses to a value, text that does not parse (an empty or cut-off
    file counts here), or a path that cannot be examined at all: [stat]
    fails there with an error that [Path.exists] raises again, a
    [PermissionError] on a directory above the file for one. *)
Inductive FileData :=
| Parses (j : json)
| Malformed
| Unreachable.

(** The file of the scraper, [None] when no such file exists. *)
Definition File := option FileData.

(** [self.apartments_file.exists()]: [Path.exists] answers [False] for a
    missing file and raises the [OSError]s that do not mean "missing". *)
Definition file_exists (f : File) : outcome bool :=
  match f with
  | Some Unreachable => Raises OSError
  | Some (Parses _) | Some Malformed => Returns true
  | None => Returns false
  end.

(** [open(self.apartments_file, 'r')]: fails when the file is missing or
    cannot be reached, or when the process may not read it. *)
Definition open_read (readable : bool) (f : File) : outcome FileData :=
  match f with
  | Some Unreachable => Raises OSError
  | Some d => if readable then Returns d else Raises OSError
  | None => Raises OSError
  end.

(** [json.load(f)] *)
Definition json_load (d : FileData) : outcome json :=
  match d with
  | Parses j => Returns j
  | Malformed => Raises JSONDecodeError
  | Unreachable => Raises OSError
  end.

(** [load_existing_apartments].  The existence check comes before the
    [try], so what it raises leaves the function.  The log line inside
    the [try] formats [len(data)], so a value without a length ends in
    the handler too. *)
Definition load_existing_apartments (readable : bool) (f : File)
  : outcome json :=
  found ← file_exists f;
  if found : bool then
    try_except
      (d ← open_read readable f;
       data ← json_load d;
       _ ← len data;
       mret data)
      (λ _, Returns empty_dict)
  else Returns empty_dict.

(** How a write to the state file can fail: not at all, when the file is
    opened, or after it was opened (while [json.dump] writes or when the
    [with] block flushes and closes). *)
Inductive WriteFault :=
| NoFault
| OpenFails
| DumpFails.

(** [open(self.apartments_file, 'w')]: mode ['w'] creates the file or cuts
    it to length zero as soon as the open succeeds.  Whether it succeeds
    is for [fault] to say; a path that could not be examined before and
    is opened now has become reachable. *)
Definition open_write (fault : WriteFault) (f : File) : outcome unit * File :=
  match fault with
  | OpenFails => (Raises OSError, f)
  | NoFault | DumpFails => (Returns tt, Some Malformed)
  end.

(** [json.dump(apartments, f, indent=2)] on the opened file. *)
Definition json_dump (fault : WriteFault) (apartments : json) (f : File)
  : outcome unit * File :=
  match fault with
  | DumpFails => (Raises OSError, f)
  | NoFault | OpenFails => (Returns tt, Some (Parses apartments))
  end.

(** [save_apartments]: the handler only logs, so the result is the file
    as the failed or finished write left it. *)
Definition save_apartments (fault : WriteFault) (apartments : json) (f : File)
  : File :=
  match open_write fault f with
  | (Raises _, f1) => f1
  | (Returns _, f1) =>
      match json_dump fault apartments f1 with
      | (Raises _, f2) => f2
      | (Returns _, f2) => f2
      end
  end.

(** ** The page enumerator *)

(** The browser as [scroll_to_load_all] talks to it.  [scroll_height k]
    answers the script [return document.body.scrollHeight] run after [k]
    scroll commands ([k = 0] is the measurement before the loop), and
    [scroll_bottom k] is the [k]-th [window.scrollTo] command.  Either
    call can raise. *)
Record Driver := {
  scroll_height : nat → outcome Z;
  scroll_bottom : nat → outcome unit
}.

(** How a run of the loop ended: through the [break] after "No more
    content to load", through the [break] after "Reached maximum scroll
    attempts", or with an exception of the driver. *)
Inductive ScrollEnd :=
| NoMoreContent
| MaxAttempts
| Aborted (e : exn).

(** A run: the number of scroll commands issued and how it ended. *)
Record ScrollRun := {
  scrolls : nat;
  ending : ScrollEnd
}.

(** The body of [while True:], entered with [last_height] and
    [scroll_count].  The loop is left through one of its two [break]s or
    through an exception; it goes round again only while the incremented
    count is at most 50, which is what makes it terminate. *)
Equations? scroll_loop (d : Driver) (last_height : Z) (scroll_count : nat)
  : ScrollRun by wf (51 - scroll_count) lt :=
  scroll_loop d last_height scroll_count
    with scroll_bottom d (S scroll_count) => {
    | Raises e := {| scrolls := S scroll_count; ending := Aborted e |};
    | Returns _ with scroll_height d (S scroll_count) => {
      | Raises e := {| scrolls := S scroll_count; ending := Aborted e |};
      | Returns new_height with Z.eq_dec new_height last_height => {
        | left _ := {| scrolls := S scroll_count; ending := NoMoreContent |};
        | right _ with lt_dec 50 (S scroll_count) => {
          | left _ := {| scrolls := S scroll_count; ending := MaxAttempts |};
          | right _ := scroll_loop d new_height (S scroll_count)
          } } } }.
Proof. lia. Qed.

(** [scroll_to_load_all] *)
Definition scroll_to_load_all (d : Driver) : ScrollRun :=
  match scroll_height d 0 with
  | Raises e => {| scrolls := 0; ending := Aborted e |}
  | Returns last_height => scroll_loop d last_height 0
  end.

(** ** The extractor *)

Definition STUYTOWN_URL : string :=
  "https://www.stuytown.com/nyc-apartments-for-rent/?Order=low-price&Bedrooms=1-2".

(** The prefix put before a link that is not absolute. *)
Definition SITE_ORIGIN : string := "https://www.stuytown.com".

(** One [.bG_cM] container as the extractor reads it.  Each field is the
    outcome of [container.find_element(...).get_attribute(...)] for one
    selector: an exception when the element is missing or stale, [None]
    when Selenium has no such attribute, a string otherwise. *)
Record Container := {
  bedrooms_elem : outcome (option string);      (* .bG_2, textContent *)
  address_elem : outcome (option string);       (* .bG_cQ, textContent *)
  availability_elem : outcome (option string);  (* .bG_bz, textContent *)
  price_elem : outcome (option string);         (* .bG_jY, textContent *)
  url_elem : outcome (option string)            (* .bG_ct, href *)
}.

(** The dictionary built for one listing.  [address] and [price] are
    strings since the validation lets nothing else through; the other
    values can be [None]. *)
Record Apartment := {
  address : string;
  price : string;
  bedrooms : option string;
  availability : option string;
  discovered_at : string;
  url : option string
}.

(** [try: x = body / except Exception: x = fallback] *)
Definition recover {A} (body : outcome A) (fallback : A) : A :=
  match body with
  | Returns a => a
  | Raises _ => fallback
  end.

(** [s.startswith(p)] *)
Definition startswith (s p : string) : bool := String.prefix p s.

(** The truth value of a [str] or [None]. *)
Definition truthy (v : option string) : bool :=
  match v with
  | Some s => negb (String.eqb s "")
  | None => false
  end.

(** The two lines inside the [try] of the unit URL, after the read. *)
Definition resolve_url (unit_url : option string) : option string :=
  match unit_url with
  | Some u =>
      if truthy unit_url && negb (startswith u "http")
      then Some (SITE_ORIGIN +:+ u)
      else unit_url
  | None => unit_url
  end.

(** The body of the loop for one container: [None] stands for
    [continue], and [stamp] is what [datetime.now().isoformat()] answers
    when the dictionary is built. *)
Definition extract_container (c : Container) (stamp : string)
  : option Apartment :=
  let bedrooms := recover (bedrooms_elem c) (Some "Unknown"%string) in
  let address := recover (address_elem c) (Some ""%string) in
  let availability := recover (availability_elem c) (Some "Unknown"%string) in
  let price := recover (price_elem c) (Some ""%string) in
  let unit_url :=
    recover (unit_url ← url_elem c; mret (resolve_url unit_url))
            (Some STUYTOWN_URL) in
  if negb (truthy address) || negb (truthy price) then None
  else
    match address, price with
    | Some address, Some price =>
        Some {| address := address;
                price := price;
                bedrooms := bedrooms;
                availability := availability;
                discovered_at := stamp;
                url := unit_url |}
    | _, _ => None
    end.

(** The page as the extractor finds it: the bounded wait for a first
    container, then [find_elements]. *)
Record Page := {
  wait_for_listings : outcome unit;
  find_containers : outcome (list Container)
}.

(** One round of [for container in apartment_containers]: the state is
    the list [apartments] and the number of clock readings made so far;
    the clock is read only when a dictionary is built. *)
Definition extract_step (now : nat → string)
    (st : list Apartment * nat) (c : Container) : list Apartment * nat :=
  let '(apartments, ticks) := st in
  match extract_container c (now ticks) with
  | Some apartment => (apartments ++ [apartment], S ticks)
  | None => (apartments, ticks)
  end.

(** [extract_apartments].  [now k] is the answer to the [k]-th reading of
    the clock made by this call.  Inside the loop every call that can
    raise sits in a [try] of its own, so the handlers around the loop
    body and around the whole function are reached only from the wait
    and from [find_elements], before anything was appended. *)
Definition extract_apartments (p : Page) (now : nat → string)
  : list Apartment :=
  recover
    (_ ← wait_for_listings p;
     apartment_containers ← find_containers p;
     mret (foldl (extract_step now) ([], 0) apartment_containers).1)
    [].

(** ** The change detector and one monitoring cycle *)

(** [None] or a [str] as a JSON value. *)
Definition json_of_str (v : option string) : json :=
  match v with
  | Some s => JStr s
  | None => JNull
  end.

(** The dictionary of a listing as a JSON value. *)
Definition apartment_dict (a : Apartment) : json :=
  JObj (<["address" := JStr (address a)]>
       (<["price" := JStr (price a)]>
       (<["bedrooms" := json_of_str (bedrooms a)]>
       (<["availability" := json_of_str (availability a)]>
       (<["discovered_at" := JStr (discovered_at a)]>
       (<["url" := json_of_str (url a)]> ∅)))))).

(** [key in s] for two strings: [key] occurs in [s]. *)
Fixpoint occurs_in (key s : string) : bool :=
  String.prefix key s ||
  match s with
  | EmptyString => false
  | String _ s' => occurs_in key s'
  end.

(** [key in container] for a string [key]: a key of a [dict], an element
    of a [list], a part of a [str], and a [TypeError] on the values that
    are no containers. *)
Definition contains (container : json) (key : string) : outcome bool :=
  match container with
  | JObj m => Returns (bool_decide (key ∈ dom m))
  | JArr l =>
      Returns (existsb (λ x, match x with
                             | JStr s => String.eqb s key
                             | _ => false
                             end) l)
  | JStr s => Returns (occurs_in key s)
  | JNull | JBool _ | JNum _ => Raises TypeError
  end.

(** One round of [for apt in current_apartments]: the state is
    [(new_apartments, updated_apartments)]. *)
Definition diff_step (known : json)
    (st : list Apartment * gmap string Apartment) (apt : Apartment)
  : outcome (list Apartment * gmap string Apartment) :=
  let '(new_apartments, updated_apartments) := st in
  let updated_apartments := <[address apt := apt]> updated_apartments in
  seen ← contains known (address apt);
  mret (if seen : bool then (new_apartments, updated_apartments)
        else (new_apartments ++ [apt], updated_apartments)).

(** A [for] loop whose body can raise. *)
Fixpoint for_each {S A} (body : S → A → outcome S) (st : S) (l : list A)
  : outcome S :=
  match l with
  | [] => Returns st
  | x :: l' => st' ← body st x; for_each body st' l'
  end.

(** The diff step of [check_for_new_apartments]: from [new_apartments =
    []] and [updated_apartments = {}] through the loop. *)
Definition diff (current_apartments : list Apartment) (known : json)
  : outcome (list Apartment * gmap string Apartment) :=
  for_each (diff_step known) ([], ∅) current_apartments.

(** A message that left through the mail server. *)
Inductive Email :=
| TestEmail
| NewApartments (new_apartments : list Apartment).

(** What the scraper owns or writes to: [self.known_apartments], the
    state file and the messages delivered so far. *)
Record World := {
  known_apartments : json;
  apartments_file : File;
  delivered : list Email
}.

(** What the outside world answers during one cycle. *)
Record Cycle := {
  get_page : outcome unit;        (* self.driver.get(STUYTOWN_URL) *)
  driver : Driver;
  page : Page;
  now : nat → string;             (* datetime.now().isoformat() *)
  write_fault : WriteFault;
  smtp : outcome unit             (* the SMTP session up to sendmail *)
}.

(** Commands: they change the world and return or raise.  A raise keeps
    the world as it was at that point. *)
Definition Cmd (A : Type) : Type := World → outcome A * World.

#[global] Instance Cmd_ret : MRet Cmd := λ A a w, (Returns a, w).
#[global] Instance Cmd_bind : MBind Cmd := λ A B k c w,
  match c w with
  | (Returns a, w') => k a w'
  | (Raises e, w') => (Raises e, w')
  end.

(** A call that does not touch the world. *)
Definition call {A} (c : outcome A) : Cmd A := λ w, (c, w).

(** [try: body / except Exception as e: handler e] *)
Definition try_cmd {A} (body : Cmd A) (handler : exn → Cmd A) : Cmd A :=
  λ w, match body w with
       | (Returns a, w') => (Returns a, w')
       | (Raises e, w') => handler e w'
       end.

(** [self.known_apartments] *)
Definition get_known : Cmd json := λ w, (Returns (known_apartments w), w).

(** [self.known_apartments = v] *)
Definition set_known (v : json) : Cmd unit := λ w,
  (Returns tt, {| known_apartments := v;
                  apartments_file := apartments_file w;
                  delivered := delivered w |}).

(** [self.save_apartments(apartments)] *)
Definition do_save (fault : WriteFault) (apartments : json) : Cmd unit := λ w,
  (Returns tt, {| known_apartments := known_apartments w;
                  apartments_file :=
                    save_apartments fault apartments (apartments_file w);
                  delivered := delivered w |}).

(** [server.sendmail(...)] at the end of a session that went as [session]. *)
Definition sendmail (session : outcome unit) (msg : Email) : Cmd unit := λ w,
  match session with
  | Returns _ =>
      (Returns tt, {| known_apartments := known_apartments w;
                      apartments_file := apartments_file w;
                      delivered := delivered w ++ [msg] |})
  | Raises e => (Raises e, w)
  end.

(** [send_email_notification] *)
Definition send_email_notification (session : outcome unit)
    (new_apartments : list Apartment) (test_mode : bool) : Cmd unit :=
  if bool_decide (new_apartments = []) && negb test_mode then mret tt
  else
    try_cmd
      (sendmail session
         (if test_mode then TestEmail else NewApartments new_apartments))
      (λ _, mret tt).

(** [self.scroll_to_load_all()] as a call: it returns nothing, or raises
    what the driver raised. *)
Definition scroll_call (d : Driver) : outcome unit :=
  match ending (scroll_to_load_all d) with
  | Aborted e => Raises e
  | NoMoreContent | MaxAttempts => Returns tt
  end.

(** [check_for_new_apartments] *)
Definition check_for_new_apartments (env : Cycle) : Cmd unit :=
  try_cmd
    (_ ← call (get_page env);
     _ ← call (scroll_call (driver env));
     let current_apartments := extract_apartments (page env) (now env) in
     if bool_decide (current_apartments = []) then mret tt
     else
       known ← get_known;
       '(new_apartments, updated_apartments) ←
         call (diff current_apartments known);
       _ ← set_known (JObj (apartment_dict <$> updated_apartments));
       known ← get_known;
       _ ← do_save (write_fault env) known;
       if bool_decide (new_apartments = []) then mret tt
       else send_email_notification (smtp env) new_apartments false)
    (λ _, mret tt).

(** The world after one cycle. *)
Definition after_check (env : Cycle) (w : World) : World :=
  (check_for_new_apartments env w).2.

(** [StuyTownScraper.__init__]: the known state is whatever
    [load_existing_apartments] returns. *)
Definition init (readable : bool) (f : File) : outcome World :=
  known ← load_existing_apartments readable f;
  mret {| known_apartments := known;
          apartments_file := f;
          delivered := [] |}.

(** ** Vocabulary of the statements *)

(** The measurement after scroll [S k] equals the one before it. *)
Definition settled (d : Driver) (k : nat) : Prop :=
  ∃ h, scroll_height d k = Returns h ∧ scroll_height d (S k) = Returns h.

(** A page that grows by one unit with every scroll. *)
Definition ever_growing : Driver :=
  {| scroll_height := λ k, Returns (Z.of_nat k);
     scroll_bottom := λ _, Returns tt |}.

(** A field reads as empty: the read raised, or gave [None] or the empty
    string. *)
Definition reads_empty (r : outcome (option string)) : bool :=
  match r with
  | Returns (Some s) => bool_decide (s = ""%string)
  | Returns None => true
  | Raises _ => true
  end.

(** [v[key]] for a dictionary [v]. *)
Definition json_get (v : json) (key : string) : option json :=
  match v with
  | JObj m => m !! key
  | _ => None
  end.

(** [updated_apartments] after the loop over [l], started from [m]. *)
Definition inserted (m : gmap string Apartment) (l : list Apartment)
  : gmap string Apartment :=
  foldl (λ m apt, <[address apt := apt]> m) m l.

(** The messages after [send_email_notification(new_apartments)]. *)
Definition notified (session : outcome unit) (new_apartments : list Apartment)
    (sent : list Email) : list Email :=
  match new_apartments, session with
  | _ :: _, Returns _ => sent ++ [NewApartments new_apartments]
  | _, _ => sent
  end.

(** ** Sample inputs *)

(** A container whose five fields are all there; the link is a parameter. *)
Definition listing (addr pr : string) (href : outcome (option string))
  : Container :=
  {| bedrooms_elem := Returns (Some "1 Bed"%string);
     address_elem := Returns (Some addr);
     availability_elem := Returns (Some "Available Now"%string);
     price_elem := Returns (Some pr);
     url_elem := href |}.

(** A container with nothing but an address and a price. *)
Definition bare_listing (addr pr : string) : Container :=
  {| bedrooms_elem := Raises NoSuchElementException;
     address_elem := Returns (Some addr);
     availability_elem := Raises NoSuchElementException;
     price_elem := Returns (Some pr);
     url_elem := Raises NoSuchElementException |}.

(** A container without its address element. *)
Definition no_address : Container :=
  {| bedrooms_elem := Returns (Some "2 Beds"%string);
     address_elem := Raises NoSuchElementException;
     availability_elem := Returns (Some "Available Now"%string);
     price_elem := Returns (Some "$5,000"%string);
     url_elem := Returns (Some "/unit/2"%string) |}.

(** A page that rendered and holds the given containers. *)
Definition rendered (cs : list Container) : Page :=
  {| wait_for_listings := Returns tt; find_containers := Returns cs |}.

(** A clock that starts at midnight and moves on by one second with
    every reading (written out for the first ten). *)
Definition sample_clock (k : nat) : string :=
  "2025-01-01T00:00:0" +:+ String (Ascii.ascii_of_nat (48 + k)) "".

(** The listing of scenario A, as extracted at the first reading of the
    sample clock from a container with nothing but address and price. *)
Definition ave_a : Apartment :=
  {| address := "12 Ave A"; price := "$3,000";
     bedrooms := Some "Unknown"%string;
     availability := Some "Unknown"%string;
     discovered_at := sample_clock 0;
     url := Some STUYTOWN_URL |}.

(** A page that has stopped growing, and a cycle in which the browser
    and the mail server work, over given containers and with a given
    fault of the write. *)
Definition quiet_driver : Driver :=
  {| scroll_height := λ _, Returns 1000%Z;
     scroll_bottom := λ _, Returns tt |}.

Definition sample_cycle (cs : list Container) (fault : WriteFault) : Cycle :=
  {| get_page := Returns tt;
     driver := quiet_driver;
     page := rendered cs;
     now := sample_clock;
     write_fault := fault;
     smtp := Returns tt |}.

(** A cycle in which no container shows up before the wait times out. *)
Definition timed_out_cycle : Cycle :=
  {| get_page := Returns tt;
     driver := quiet_driver;
     page := {| wait_for_listings := Raises TimeoutException;
                find_containers := Returns [] |};
     now := sample_clock;
     write_fault := NoFault;
     smtp := Returns tt |}.

(** A scraper that knows the listing of scenario A, in memory and on
    disk, and has sent one message about it. *)
Definition knows_ave_a : World :=
  {| known_apartments := JObj {[ "12 Ave A"%string := apartment_dict ave_a ]};
     apartments_file :=
       Some (Parses (JObj {[ "12 Ave A"%string := apartment_dict ave_a ]}));
     delivered := [NewApartments [ave_a]] |}.

(** A scraper that starts fresh over a file that holds [{}]. *)
Definition fresh : World :=
  {| known_apartments := empty_dict;
     apartments_file := Some (Parses empty_dict);
     delivered := [] |}.

(** A later cycle: as [sample_cycle], with a clock that is five seconds
    further on. *)
Definition later_cycle (cs : list Container) (fault : WriteFault) : Cycle :=
  {| get_page := Returns tt;
     driver := quiet_driver;
     page := rendered cs;
     now := λ k, sample_clock (5 + k);
     write_fault := fault;
     smtp := Returns tt |}.

(** The listing of scenario A as that later cycle extracts it. *)
Definition ave_a_again : Apartment :=
  {| address := "12 Ave A"; price := "$3,100";
     bedrooms := Some "Unknown"%string;
     availability := Some "Unknown"%string;
     discovered_at := sample_clock 5;
     url := Some STUYTOWN_URL |}.

(** Scenario A in a cycle whose save fails: the state file cannot be
    opened, or the write breaks off after the open. *)
Definition cycle_open_fails : Cycle :=
  sample_cycle [bare_listing "12 Ave A" "$3,000"] OpenFails.

Definition cycle_dump_fails : Cycle :=
  sample_cycle [bare_listing "12 Ave A" "$3,000"] DumpFails.

(** A page that grows with each of the first [n] scrolls and then stays. *)
Definition settles_after (n : nat) : Driver :=
  {| scroll_height := λ k, Returns (Z.of_nat (k `min` n));
     scroll_bottom := λ _, Returns tt |}.

(** ** The other entry points *)

(** [test_email]: [send_email_notification(test_mode=True)].  The list is
    left at its default [None], which is as false as the empty list and
    is not looked at in test mode. *)
Definition test_email (session : outcome unit) : Cmd unit :=
  send_email_notification session [] true.

(** [{apt['address']: apt for apt in current_apartments}] *)
Definition dict_by_address (current_apartments : list Apartment)
  : gmap string Apartment :=
  foldl (λ d apt, <[address apt := apt]> d) ∅ current_apartments.

(** [self.driver]: [None], a live browser session, or a session after
    [quit()]. *)
Inductive Browser :=
| NoDriver
| Running
| Closed.

(** The scraper with its browser. *)
Record Process := {
  world : World;
  browser : Browser
}.

(** Commands of the entry points: they also start and close the browser. *)
Definition Run (A : Type) : Type := Process → outcome A * Process.

#[global] Instance Run_ret : MRet Run := λ A a p, (Returns a, p).
#[global] Instance Run_bind : MBind Run := λ A B k c p,
  match c p with
  | (Returns a, p') => k a p'
  | (Raises e, p') => (Raises e, p')
  end.

(** A command of the scraper, run with the browser as it is. *)
Definition in_world {A} (c : Cmd A) : Run A := λ p,
  let '(o, w') := c (world p) in
  (o, {| world := w'; browser := browser p |}).

(** [try: body / except Exception as e: handler e] *)
Definition try_run {A} (body : Run A) (handler : exn → Run A) : Run A :=
  λ p, match body p with
       | (Returns a, p') => (Returns a, p')
       | (Raises e, p') => handler e p'
       end.

(** [try: body / finally: final]: [final] runs whether or not [body]
    raised; what [final] raises replaces the outcome of [body]. *)
Definition try_finally {A} (body : Run A) (final : Run unit) : Run A :=
  λ p, match body p with
       | (o, p') =>
           match final p' with
           | (Returns _, p'') => (o, p'')
           | (Raises e, p'') => (Raises e, p'')
           end
       end.

(** [setup_driver]: [launch] is the outcome of [webdriver.Chrome(...)];
    a failure is logged and raised again, with [self.driver] as it was. *)
Definition setup_driver (launch : outcome unit) : Run unit := λ p,
  match launch with
  | Returns _ => (Returns tt, {| world := world p; browser := Running |})
  | Raises e => (Raises e, p)
  end.

(** [if self.driver: self.driver.quit()], with [quit] the outcome of the
    call. *)
Definition quit_driver (quit : outcome unit) : Run unit := λ p,
  match browser p with
  | NoDriver => (Returns tt, p)
  | Running | Closed =>
      match quit with
      | Returns _ => (Returns tt, {| world := world p; browser := Closed |})
      | Raises e => (Raises e, p)
      end
  end.

(** [save_initial_apartments] *)
Definition save_initial_apartments
    (launch : outcome unit) (env : Cycle) (quit : outcome unit) : Run unit :=
  try_finally
    (try_run
       (_ ← setup_driver launch;
        in_world
          (_ ← call (get_page env);
           _ ← call (scroll_call (driver env));
           let current_apartments :=
             extract_apartments (page env) (now env) in
           if bool_decide (current_apartments = []) then mret tt
           else
             let apartments_dict := dict_by_address current_apartments in
             _ ← set_known (JObj (apartment_dict <$> apartments_dict));
             known ← get_known;
             do_save (write_fault env) known))
       (λ _, mret tt))
    (quit_driver quit).

(** The rounds of [while True:] in [run], one for each cycle of [envs]:
    [check_for_new_apartments], then the wait. *)
Fixpoint monitor (envs : list Cycle) : Cmd unit :=
  match envs with
  | [] => mret tt
  | env :: envs' => _ ← check_for_new_apartments env; monitor envs'
  end.

(** [run], stopped by the user while it waits after the last cycle of
    [envs]: the [KeyboardInterrupt] is caught and logged, and the
    [finally] block closes the browser. *)
Definition run (launch : outcome unit) (envs : list Cycle)
    (quit : outcome unit) : Run unit :=
  try_finally
    (try_run
       (_ ← setup_driver launch; in_world (monitor envs))
       (λ _, mret tt))
    (quit_driver quit).

(** What the outside world holds for one start of the program: the state
    file, the browser, the answers to the one cycle of the mode that
    saves a baseline, the answers to the cycles of the monitoring mode,
    and the mail session of the test mode. *)
Record Outside := {
  readable : bool;               (* may the state file be read *)
  state_file : File;
  launch : outcome unit;         (* webdriver.Chrome(options=options) *)
  quit : outcome unit;           (* self.driver.quit() *)
  baseline : Cycle;
  cycles : list Cycle;
  test_session : outcome unit
}.

(** [main] with the two flags of the command line: the scraper is built,
    then one of the three modes runs.  The result is the process as the
    program leaves it, or the exception that ends the program. *)
Definition main (save_apartments_flag test_email_flag : bool) (o : Outside)
  : outcome Process :=
  scraper ← init (readable o) (state_file o);
  let p := {| world := scraper; browser := NoDriver |} in
  let '(result, p') :=
    if save_apartments_flag then
      save_initial_apartments (launch o) (baseline o) (quit o) p
    else if test_email_flag then in_world (test_email (test_session o)) p
    else run (launch o) (cycles o) (quit o) p in
  _ ← result; mret p'.

(** ** More vocabulary *)

(** The value has a length: it is a [str], a [list] or a [dict]. *)
Definition has_len (v : json) : bool :=
  match v with
  | JStr _ | JArr _ | JObj _ => true
  | JNull | JBool _ | JNum _ => false
  end.

(** The world after the cycles of [envs], one after the other. *)
Definition after_cycles (envs : list Cycle) (w : World) : World :=
  foldl (λ w env, after_check env w) w envs.

(** The container is not skipped: address and price both read as
    non-empty strings. *)
Definition kept (c : Container) : bool :=
  negb (reads_empty (address_elem c) || reads_empty (price_elem c)).

(** The cycle gets as far as the diff with a record in hand. *)
Definition reaches_diff (env : Cycle) : Prop :=
  get_page env = Returns tt ∧
  scroll_call (driver env) = Returns tt ∧
  extract_apartments (page env) (now env) ≠ [].

(** The same cycle with another outcome of the SMTP session. *)
Definition with_smtp (session : outcome unit) (env : Cycle) : Cycle :=
  {| get_page := get_page env;
     driver := driver env;
     page := page env;
     now := now env;
     write_fault := write_fault env;
     smtp := session |}.

(** The address a container shows, the empty string when it shows none. *)
Definition address_read (c : Container) : string :=
  match address_elem c with
  | Returns (Some a) => a
  | _ => ""
  end.

(** The dictionaries of the containers [cs], in their order, when the
    clock has been read [ticks] times before. *)
Fixpoint records_from (now : nat → string) (ticks : nat) (cs : list Container)
  : list Apartment :=
  match cs with
  | [] => []
  | c :: cs' =>
      match extract_container c (now ticks) with
      | Some apartment => apartment :: records_from now (S ticks) cs'
      | None => records_from now ticks cs'
      end
  end.

(** A browser whose third scroll command fails. *)
Definition breaks_at_third : Driver :=
  {| scroll_height := λ k, Returns (Z.of_nat k);
     scroll_bottom := λ k, if decide (k = 3) then Raises WebDriverException
                           else Returns tt |}.

(** The process as [main] finds it: the scraper just built, no browser. *)
Definition started (w : World) : Process :=
  {| world := w; browser := NoDriver |}.

(** An outside world in which everything works: the file holds [{}] and
    the page shows the listing of scenario A. *)
Definition calm_outside : Outside :=
  {| readable := true;
     state_file := Some (Parses empty_dict);
     launch := Returns tt;
     quit := Returns tt;
     baseline := sample_cycle [bare_listing "12 Ave A" "$3,000"] NoFault;
     cycles := [sample_cycle [bare_listing "12 Ave A" "$3,000"] NoFault];
     test_session := Returns tt |}.

(** ** The text of a message *)

(** The line break of the f-strings. *)
Definition newline : string := String (Ascii.ascii_of_nat 10) EmptyString.

(** A [str] or [None] inside an f-string. *)
Definition formatted (v : option string) : string :=
  match v with
  | Some s => s
  | None => "None"
  end.

(** The five [body += ...] lines for one listing. *)
Definition add_listing (body : string) (apt : Apartment) : string :=
  let body := body +:+ "📍 " +:+ address apt +:+ newline in
  let body := body +:+ "💰 " +:+ price apt +:+ newline in
  let body := body +:+ "🛏️ " +:+ formatted (bedrooms apt) +:+ newline in
  let body := body +:+ "🕐 Discovered: " +:+ discovered_at apt +:+ newline in
  let body := body +:+ "🔗 " +:+ formatted (url apt) +:+ newline +:+ newline in
  body.

(** The body that [send_email_notification] builds for a message. *)
Definition message_body (msg : Email) : string :=
  match msg with
  | TestEmail =>
      "This is a test email from your StuyTown apartment scraper."
      +:+ newline +:+ newline
      +:+ "If you received this, email notifications are working correctly!"
  | NewApartments new_apartments =>
      foldl add_listing
        ("New apartments available at StuyTown:" +:+ newline +:+ newline)
        new_apartments
  end.

(** A cycle over a page that shows another listing only. *)
Definition cycle_ave_b : Cycle :=
  sample_cycle [bare_listing "14 Ave B" "$4,000"] NoFault.

(** A later cycle over a page that shows the listing of scenario A. *)
Definition cycle_ave_a_again : Cycle :=
  later_cycle [bare_listing "12 Ave A" "$3,100"] NoFault.

(** An outside world whose state file cannot be examined. *)
Definition locked_outside : Outside :=
  {| readable := true;
     state_file := Some Unreachable;
     launch := Returns tt;
     quit := Returns tt;
     baseline := sample_cycle [bare_listing "12 Ave A" "$3,000"] NoFault;
     cycles := [sample_cycle [bare_listing "12 Ave A" "$3,000"] NoFault];
     test_session := Returns tt |}.

(** A page with a listing whose link is relative, a container without an
    address, and a listing with nothing but an address and a price; and
    the two dictionaries that the extractor builds from it. *)
Definition mixed_page : Page :=
  rendered [listing "12 Ave A" "$3,000" (Returns (Some "/unit/1"%string));
            no_address;
            bare_listing "14 Ave B" "$4,000"].

Definition ave_a_linked : Apartment :=
  {| address := "12 Ave A"; price := "$3,000";
     bedrooms := Some "1 Bed"%string;
     availability := Some "Available Now"%string;
     discovered_at := sample_clock 0;
     url := Some "https://www.stuytown.com/unit/1"%string |}.

Definition ave_b : Apartment :=
  {| address := "14 Ave B"; price := "$4,000";
     bedrooms := Some "Unknown"%string;
     availability := Some "Unknown"%string;
     discovered_at := sample_clock 1;
     url := Some STUYTOWN_URL |}.

(** * Properties *)

(** ** The state file *)

Lemma load_absent readable :
  load_existing_apartments readable None = Returns empty_dict.
Proof. reflexivity. Qed.

Lemma load_malformed readable :
  load_existing_apartments readable (Some Malformed) = Returns empty_dict.
Proof. by destruct readable. Qed.

Lemma load_unreadable d :
  d ≠ Unreachable →
  load_existing_apartments false (Some d) = Returns empty_dict.
Proof. by destruct d. Qed.

Lemma load_unreachable readable :
  load_existing_apartments readable (Some Unreachable) = Raises OSError.
Proof. reflexivity. Qed.

(** What a readable, well-formed file loads to: the value itself when it
    has a length, the empty dictionary otherwise. *)
Lemma load_parsed j :
  load_existing_apartments true (Some (Parses j)) =
  match len j with
  | Returns _ => Returns j
  | Raises _ => Returns empty_dict
  end.
Proof. by destruct j. Qed.

(** The load returns wherever the existence check does, and raises what
    the existence check raises. *)
Lemma load_cases readable f :
  match file_exists f with
  | Returns _ => ∃ v, load_existing_apartments readable f = Returns v
  | Raises e => load_existing_apartments readable f = Raises e
  end.
Proof.
  destruct f as [[j| |]|]; cbn [file_exists]; [destruct readable| | |].
  - rewrite load_parsed. destruct (len j); eauto.
  - rewrite load_unreadable by done. eauto.
  - rewrite load_malformed. eauto.
  - apply load_unreachable.
  - rewrite load_absent. eauto.
Qed.

(** C8, as the code has it: [load_existing_apartments] lets out no
    exception of the open, the parse or the log line: wherever the
    existence check of the file returns, the load returns, be the file
    readable or not; a missing file gives the empty mapping, and so does
    a file whose contents do not parse.  The existence check stands
    before the [try]: what it raises, the load raises. *)
Theorem load_existing_apartments_raises_only_from_exists :
  (∀ readable f,
     match file_exists f with
     | Returns _ => ∃ v, load_existing_apartments readable f = Returns v
     | Raises e => load_existing_apartments readable f = Raises e
     end) ∧
  (∀ readable, load_existing_apartments readable None = Returns empty_dict) ∧
  (∀ readable,
     load_existing_apartments readable (Some Malformed) = Returns empty_dict).
Proof.
  split; [|split].
  - intros readable f.
    destruct f as [[j| |]|]; cbn [file_exists]; [destruct readable| | |].
    + rewrite load_parsed. destruct (len j); eauto.
    + rewrite load_unreadable by done. eauto.
    + rewrite load_malformed. eauto.
    + apply load_unreachable.
    + rewrite load_absent. eauto.
  - apply load_absent.
  - apply load_malformed.
Qed.

(** C8, as the claim has it, fails on a state file that cannot be
    examined: [exists()] raises before the [try] is entered, and the
    load raises with it. *)
Lemma load_existing_apartments_raises_with_exists :
  file_exists (Some Unreachable) = Raises OSError ∧
  load_existing_apartments true (Some Unreachable) = Raises OSError ∧
  ¬ (∀ readable f, ∃ v, load_existing_apartments readable f = Returns v).
Proof.
  split; [reflexivity|]. split; [reflexivity|].
  intros Hnever. destruct (Hnever true (Some Unreachable)) as [v Hv].
  discriminate Hv.
Qed.

(** C9: a readable file that holds a JSON list loads to that very list,
    which is no mapping, and the scraper starts with it as its known
    state: the load checks no shape. *)
Theorem load_existing_apartments_keeps_a_list (l : list json) :
  load_existing_apartments true (Some (Parses (JArr l))) = Returns (JArr l) ∧
  (∀ m, JArr l ≠ JObj m) ∧
  init true (Some (Parses (JArr l))) =
    Returns {| known_apartments := JArr l;
               apartments_file := Some (Parses (JArr l));
               delivered := [] |}.
Proof. split; [|split]; [reflexivity | discriminate | reflexivity]. Qed.

(** ** The page enumerator *)

(** The loop entered after [scroll_count] scrolls, with the measurement
    taken then: it issues at least one more scroll and never a 52nd, it
    runs past no settled measurement, and each [break] is taken for its
    reason. *)
Lemma scroll_loop_spec d last_height scroll_count :
  scroll_height d scroll_count = Returns last_height →
  scroll_count ≤ 50 →
  let r := scroll_loop d last_height scroll_count in
  scroll_count < scrolls r ≤ 51 ∧
  (∀ k, scroll_count ≤ k → S k < scrolls r → ¬ settled d k) ∧
  (ending r = NoMoreContent → ∃ k, scrolls r = S k ∧ settled d k) ∧
  (ending r = MaxAttempts → scrolls r = 51 ∧ ¬ settled d 50).
Proof.
  funelim (scroll_loop d last_height scroll_count); intros Hlast Hle; cbn zeta.
  all: try rewrite <- Heqcall; cbn.
  - (* the scroll command raised *)
    repeat split; try lia; discriminate.
  - (* the measurement raised *)
    repeat split; try lia; discriminate.
  - (* the height did not change *)
    subst. repeat split; try lia; try discriminate.
    intros _. exists scroll_count. split; [done|]. by exists last_height.
  - (* more than 50 scrolls *)
    assert (scroll_count = 50) as -> by lia.
    repeat split; try lia; try discriminate.
    intros (h & H1 & H2). congruence.
  - (* once more round the loop *)
    match goal with
    | IH : _ → _ → _ ∧ _ |- _ =>
        destruct (IH ltac:(done) ltac:(lia)) as (Hb & Hpast & Hstop & Hcap)
    end.
    split; [lia|]. split; [|done].
    intros k Hk Hlt.
    destruct (decide (k = scroll_count)) as [->|Hne].
    + intros (h & H1 & H2). congruence.
    + apply Hpast; lia.
Qed.

(** C6, as the code has it: [scroll_to_load_all] is total and issues at
    most 51 scroll commands.  It runs past no measurement that equals the
    one before it; it ends with "No more content" exactly at such a
    measurement, and with "Reached maximum scroll attempts" only after
    the 51st scroll, when the count first exceeds 50. *)
Theorem scroll_to_load_all_stops (d : Driver) :
  let r := scroll_to_load_all d in
  scrolls r ≤ 51 ∧
  (∀ k, S k < scrolls r → ¬ settled d k) ∧
  match ending r with
  | NoMoreContent => ∃ k, scrolls r = S k ∧ settled d k
  | MaxAttempts => scrolls r = 51 ∧ ¬ settled d 50
  | Aborted _ => True
  end.
Proof.
  unfold scroll_to_load_all.
  destruct (scroll_height d 0) as [h|e] eqn:Hfirst; cbn zeta.
  - destruct (scroll_loop_spec d h 0 Hfirst ltac:(lia))
      as (Hb & Hpast & Hstop & Hcap).
    split; [lia|]. split; [intros k ?; apply Hpast; lia|].
    destruct (ending (scroll_loop d h 0)); auto.
  - cbn. split; [lia|]. split; [|done]. intros k ?; lia.
Qed.

(** A page that stops growing after two scrolls is left after the third,
    and one that stops after fifty after the fifty-first. *)
Example scroll_to_load_all_settles :
  scroll_to_load_all (settles_after 2) =
    {| scrolls := 3; ending := NoMoreContent |} ∧
  scroll_to_load_all (settles_after 50) =
    {| scrolls := 51; ending := NoMoreContent |}.
Proof. split; vm_compute; reflexivity. Qed.

(** C6, as the claim has it, fails on a page that keeps growing: the
    51st scroll is issued before the count is compared with 50. *)
Lemma scroll_to_load_all_exceeds_50 :
  scroll_to_load_all ever_growing = {| scrolls := 51; ending := MaxAttempts |} ∧
  ¬ (∀ d, scrolls (scroll_to_load_all d) ≤ 50).
Proof.
  assert (scroll_to_load_all ever_growing =
          {| scrolls := 51; ending := MaxAttempts |}) as Hrun
    by (vm_compute; reflexivity).
  split; [exact Hrun|].
  intros Hcap. specialize (Hcap ever_growing). rewrite Hrun in Hcap.
  cbn in Hcap. lia.
Qed.

(** ** The extractor *)

(** What a container that yields a dictionary has given to each field. *)
Lemma extract_container_Some c stamp apt :
  extract_container c stamp = Some apt →
  address_elem c = Returns (Some (address apt)) ∧ address apt ≠ ""%string ∧
  price_elem c = Returns (Some (price apt)) ∧ price apt ≠ ""%string ∧
  bedrooms apt = recover (bedrooms_elem c) (Some "Unknown"%string) ∧
  availability apt = recover (availability_elem c) (Some "Unknown"%string) ∧
  discovered_at apt = stamp ∧
  url apt = recover (u ← url_elem c; mret (resolve_url u)) (Some STUYTOWN_URL).
Proof.
  unfold extract_container.
  destruct (address_elem c) as [[a|]|ea]; cbn; try discriminate;
    (destruct (String.eqb_spec a "") as [->|Ha]; cbn; [discriminate|]).
  destruct (price_elem c) as [[p|]|ep]; cbn; try discriminate;
    (destruct (String.eqb_spec p "") as [->|Hp]; cbn; [discriminate|]).
  intros [= <-]; cbn. done.
Qed.

Lemma extract_container_None c stamp :
  reads_empty (address_elem c) || reads_empty (price_elem c) = true →
  extract_container c stamp = None.
Proof.
  unfold extract_container, reads_empty.
  destruct (address_elem c) as [[a|]|ea]; cbn; try done;
    (destruct (String.eqb_spec a "") as [->|Ha]; cbn; [done|]).
  rewrite bool_decide_eq_false_2 by done. cbn.
  destruct (price_elem c) as [[p|]|ep]; cbn; try done.
  destruct (String.eqb_spec p "") as [->|Hp]; cbn; [done|].
  by rewrite bool_decide_eq_false_2.
Qed.

(** The loop appends to [apartments], reads the clock once for each
    dictionary it appends, and builds the [i]-th new dictionary from some
    container with that reading as its stamp. *)
Lemma extract_loop_spec now cs apartments ticks :
  ∃ new,
    foldl (extract_step now) (apartments, ticks) cs =
      (apartments ++ new, ticks + length new) ∧
    ∀ i apt, new !! i = Some apt →
      ∃ c, c ∈ cs ∧ extract_container c (now (ticks + i)) = Some apt.
Proof.
  revert apartments ticks.
  induction cs as [|c cs IH]; intros apartments ticks; cbn [foldl].
  - exists []. rewrite app_nil_r, Nat.add_0_r. split; [done|].
    intros i apt; by rewrite lookup_nil.
  - unfold extract_step at 2.
    destruct (extract_container c (now ticks)) as [apartment|] eqn:Hc.
    + destruct (IH (apartments ++ [apartment]) (S ticks)) as (new & -> & Hnew).
      exists (apartment :: new). split.
      * rewrite <- app_assoc. cbn. f_equal. lia.
      * intros [|i] apt; cbn.
        -- intros [= <-]. exists c. rewrite Nat.add_0_r.
           split; [apply list_elem_of_here | done].
        -- intros Hi. destruct (Hnew i apt Hi) as (c' & Hin & Hc').
           exists c'. split; [by apply list_elem_of_further|].
           by replace (ticks + S i) with (S ticks + i) by lia.
    + destruct (IH apartments ticks) as (new & -> & Hnew).
      exists new. split; [done|].
      intros i apt Hi. destruct (Hnew i apt Hi) as (c' & Hin & Hc').
      exists c'. split; [by apply list_elem_of_further | done].
Qed.

(** The [i]-th dictionary of the result comes from a container of the
    page and carries the [i]-th reading of the clock. *)
Lemma extract_apartments_lookup p now i apt :
  extract_apartments p now !! i = Some apt →
  ∃ cs c, find_containers p = Returns cs ∧ c ∈ cs ∧
          extract_container c (now i) = Some apt.
Proof.
  unfold extract_apartments.
  destruct (wait_for_listings p); cbn; [|by rewrite lookup_nil].
  destruct (find_containers p) as [cs|]; cbn; [|by rewrite lookup_nil].
  destruct (extract_loop_spec now cs [] 0) as (new & -> & Hnew); cbn.
  intros Hi. destruct (Hnew i apt Hi) as (c & Hin & Hc). eauto.
Qed.

(** A container that is skipped leaves the state of the loop as it was. *)
Lemma extract_step_skip now st c :
  reads_empty (address_elem c) || reads_empty (price_elem c) = true →
  extract_step now st c = st.
Proof.
  intros Hc. destruct st as [apartments ticks]. unfold extract_step.
  by rewrite extract_container_None.
Qed.

(** C4: every dictionary that [extract_apartments] returns has a
    non-empty address and a non-empty price; a container whose address or
    price reads as empty yields no dictionary; and the pass over a page
    that holds such a container returns what it returns without it, so
    the containers around it are processed all the same. *)
Theorem extract_apartments_valid :
  (∀ p now apt, apt ∈ extract_apartments p now →
     address apt ≠ ""%string ∧ price apt ≠ ""%string) ∧
  (∀ c stamp,
     reads_empty (address_elem c) || reads_empty (price_elem c) = true →
     extract_container c stamp = None) ∧
  (∀ w cs1 c cs2 now,
     reads_empty (address_elem c) || reads_empty (price_elem c) = true →
     extract_apartments
       {| wait_for_listings := w; find_containers := Returns (cs1 ++ c :: cs2) |}
       now =
     extract_apartments
       {| wait_for_listings := w; find_containers := Returns (cs1 ++ cs2) |}
       now).
Proof.
  split; [|split].
  - intros p now apt [i Hi]%list_elem_of_lookup.
    apply extract_apartments_lookup in Hi as (cs & c & _ & _ & Hc).
    apply extract_container_Some in Hc. tauto.
  - intros c stamp. apply extract_container_None.
  - intros w cs1 c cs2 now Hc. unfold extract_apartments.
    destruct w; cbn; [|done].
    rewrite !foldl_app. cbn [foldl]. by rewrite extract_step_skip.
Qed.

(** The skipped container of the middle of a page, and its neighbours. *)
Lemma extract_apartments_valid_example :
  extract_apartments
    (rendered [bare_listing "12 Ave A" "$3,000"; no_address;
               bare_listing "14 Ave B" "$4,000"]) sample_clock =
  extract_apartments
    (rendered [bare_listing "12 Ave A" "$3,000";
               bare_listing "14 Ave B" "$4,000"]) sample_clock ∧
  length (extract_apartments
    (rendered [bare_listing "12 Ave A" "$3,000"; no_address;
               bare_listing "14 Ave B" "$4,000"]) sample_clock) = 2.
Proof.
  split; [|reflexivity].
  apply (proj2 (proj2 extract_apartments_valid) (Returns tt)
           [bare_listing "12 Ave A" "$3,000"] no_address
           [bare_listing "14 Ave B" "$4,000"] sample_clock).
  reflexivity.
Defined.

(** C5, as the claim has it, fails on a link that reads as the empty
    string: it does not start with ["http"], and the dictionary keeps it
    as it is, with no site origin before it. *)
Lemma extract_apartments_keeps_empty_link :
  extract_apartments
    (rendered [listing "12 Ave A" "$3,000" (Returns (Some ""%string))])
    sample_clock =
  [{| address := "12 Ave A"; price := "$3,000";
      bedrooms := Some "1 Bed"%string;
      availability := Some "Available Now"%string;
      discovered_at := sample_clock 0;
      url := Some ""%string |}] ∧
  startswith "" "http" = false ∧
  Some ""%string ≠ Some (SITE_ORIGIN +:+ "") ∧
  ¬ (∀ p now apt, apt ∈ extract_apartments p now →
       ∀ cs, find_containers p = Returns cs →
       ∀ c u, c ∈ cs → address_elem c = Returns (Some (address apt)) →
         url_elem c = Returns (Some u) → startswith u "http" = false →
         url apt = Some (SITE_ORIGIN +:+ u)).
Proof.
  split; [reflexivity|]. split; [reflexivity|]. split; [discriminate|].
  intros Hclaim.
  specialize (Hclaim
    (rendered [listing "12 Ave A" "$3,000" (Returns (Some ""%string))])
    sample_clock _ (list_elem_of_here _ _) _ eq_refl
    _ ""%string (list_elem_of_here _ _) eq_refl eq_refl eq_refl).
  discriminate Hclaim.
Qed.

(** ** The change detector *)

Lemma inserted_lookup m l k :
  inserted m l !! k =
  match last (filter (λ apt, address apt = k) l) with
  | Some apt => Some apt
  | None => m !! k
  end.
Proof.
  revert m. induction l as [|a l IH] using rev_ind; intros m; [done|].
  unfold inserted in *. rewrite foldl_app. cbn [foldl].
  rewrite filter_app, filter_cons, filter_nil.
  destruct (decide (address a = k)) as [<-|Hne].
  - by rewrite last_snoc, lookup_insert_eq.
  - by rewrite app_nil_r, lookup_insert_ne, IH.
Qed.

Lemma inserted_dom l :
  dom (inserted ∅ l) = list_to_set (address <$> l).
Proof.
  unfold inserted.
  induction l as [|a l IH] using rev_ind; [apply dom_empty_L|].
  rewrite foldl_app, fmap_app, list_to_set_app_L. cbn [foldl].
  rewrite dom_insert_L, IH. cbn.
  rewrite (right_id_L ∅ (∪)). apply (comm_L (∪)).
Qed.

(** Whatever the known state is, a loop that comes to its end has built
    the mapping of the records it went through. *)
Lemma for_each_diff_merged known current new upd new' upd' :
  for_each (diff_step known) (new, upd) current = Returns (new', upd') →
  upd' = inserted upd current.
Proof.
  revert new upd. induction current as [|a l IH]; intros new upd; cbn.
  - by intros [= _ <-].
  - destruct (contains known (address a)) as [[]|]; cbn; [..|done];
      intros H%IH; done.
Qed.

Lemma diff_step_mapping (previous : gmap string json) new upd apt :
  diff_step (JObj previous) (new, upd) apt =
  Returns (if bool_decide (address apt ∈ dom previous)
           then (new, <[address apt := apt]> upd)
           else (new ++ [apt], <[address apt := apt]> upd)).
Proof. reflexivity. Qed.

(** Against a mapping the loop never raises, and it collects the records
    whose address is no key of the mapping. *)
Lemma for_each_diff_mapping (previous : gmap string json) current new upd :
  for_each (diff_step (JObj previous)) (new, upd) current =
  Returns (new ++ filter (λ apt, address apt ∉ dom previous) current,
           inserted upd current).
Proof.
  revert new upd. induction current as [|a l IH]; intros new upd.
  - cbn. by rewrite app_nil_r.
  - cbn [for_each]. rewrite diff_step_mapping, filter_cons.
    case_bool_decide as Hin; cbn [mbind outcome_bind]; rewrite IH.
    + by rewrite decide_False by (by intros ?).
    + rewrite decide_True by done. by rewrite <- app_assoc.
Qed.

Lemma filter_none {A} (P : A → Prop) `{!∀ x, Decision (P x)} (l : list A) :
  (∀ x, x ∈ l → ¬ P x) → filter P l = [].
Proof.
  induction l as [|x l IH]; intros Hl; [done|].
  rewrite filter_cons_False by (apply Hl, list_elem_of_here).
  apply IH. intros y Hy. by apply Hl, list_elem_of_further.
Qed.

(** C1: against a prior mapping the diff step returns, as new items, the
    records of [current] whose address is no key of [previous], in the
    order of [current]; the merged mapping has the addresses of [current]
    as its keys, holds for each the last record of [current] with that
    address, and has no key that is only in [previous]. *)
Theorem diff_new_and_merged
    (current : list Apartment) (previous : gmap string json) :
  ∃ merged : gmap string Apartment,
    diff current (JObj previous) =
      Returns (filter (λ apt, address apt ∉ dom previous) current, merged) ∧
    dom merged = list_to_set (address <$> current) ∧
    (∀ k, merged !! k = last (filter (λ apt, address apt = k) current)) ∧
    (∀ k, k ∈ dom previous → k ∉ address <$> current → k ∉ dom merged).
Proof.
  exists (inserted ∅ current). split; [|split; [|split]].
  - unfold diff. by rewrite for_each_diff_mapping.
  - apply inserted_dom.
  - intros k. rewrite inserted_lookup, lookup_empty.
    by destruct (last _).
  - intros k _ Hk. by rewrite inserted_dom, elem_of_list_to_set.
Qed.

(** Scenario C: a listing that has left the page leaves the mapping. *)
Example scenario_C_evaluated :
  diff [ave_a]
    (JObj {[ "12 Ave A"%string := apartment_dict ave_a;
             "14 Ave B"%string := JObj ∅ ]}) =
  Returns ([], {[ "12 Ave A"%string := ave_a ]}).
Proof. vm_compute; reflexivity. Qed.

(** C2: when the diff step has returned a merged mapping for [current],
    a second run with the same [current] against that mapping, stored as
    the known state, returns no new item (and the same mapping). *)
Theorem diff_idempotent current known new_apartments merged :
  diff current known = Returns (new_apartments, merged) →
  diff current (JObj (apartment_dict <$> merged)) = Returns ([], merged).
Proof.
  unfold diff. intros ->%for_each_diff_merged.
  rewrite for_each_diff_mapping. cbn [app]. f_equal. f_equal.
  apply filter_none. intros apt Hin Hnew. apply Hnew.
  rewrite dom_fmap_L, inserted_dom, elem_of_list_to_set.
  by apply list_elem_of_fmap_2.
Qed.

(** Scenario A run twice: new the first time, known the second. *)
Lemma diff_idempotent_scenario_A :
  diff [ave_a] empty_dict = Returns ([ave_a], {[ "12 Ave A"%string := ave_a ]}) ∧
  diff [ave_a] (JObj (apartment_dict <$> {[ "12 Ave A"%string := ave_a ]})) =
    Returns ([], {[ "12 Ave A"%string := ave_a ]}).
Proof.
  assert (diff [ave_a] empty_dict =
          Returns ([ave_a], {[ "12 Ave A"%string := ave_a ]})) as Hfirst
    by (vm_compute; reflexivity).
  split; [exact Hfirst|].
  exact (diff_idempotent [ave_a] empty_dict [ave_a] _ Hfirst).
Defined.

(** ** One monitoring cycle *)


(** A cycle that gets as far as the diff replaces the known state, then
    saves, then notifies. *)
Lemma check_merges env w new_apartments merged :
  get_page env = Returns tt →
  scroll_call (driver env) = Returns tt →
  extract_apartments (page env) (now env) ≠ [] →
  diff (extract_apartments (page env) (now env)) (known_apartments w) =
    Returns (new_apartments, merged) →
  check_for_new_apartments env w =
  (Returns tt,
   {| known_apartments := JObj (apartment_dict <$> merged);
      apartments_file :=
        save_apartments (write_fault env) (JObj (apartment_dict <$> merged))
          (apartments_file w);
      delivered := notified (smtp env) new_apartments (delivered w) |}).
Proof.
  intros Hget Hscroll Hcur Hdiff.
  unfold check_for_new_apartments, try_cmd, call, get_known.
  rewrite Hget, Hscroll, bool_decide_eq_false_2 by done.
  unfold mbind, Cmd_bind. rewrite Hdiff.
  unfold set_known, do_save, send_email_notification, try_cmd, sendmail,
    mret, Cmd_ret; cbn.
  destruct new_apartments as [|apt new]; cbn; [done|].
  by destruct (smtp env).
Qed.

(** A cycle that does not get as far as the diff leaves the world alone. *)
Lemma check_skips env w :
  get_page env ≠ Returns tt ∨
  scroll_call (driver env) ≠ Returns tt ∨
  extract_apartments (page env) (now env) = [] →
  check_for_new_apartments env w = (Returns tt, w).
Proof.
  unfold check_for_new_apartments, try_cmd, call, mbind, Cmd_bind.
  destruct (get_page env) as [u|e]; [destruct u|done].
  destruct (scroll_call (driver env)) as [u|e]; [destruct u|done].
  intros [H | [H | ->]]; done.
Qed.

(** C3: when the extraction returns no record, the check returns and the
    world is what it was: the same known state, the same state file and
    the same delivered messages. *)
Theorem check_skips_empty_snapshot env w :
  extract_apartments (page env) (now env) = [] →
  check_for_new_apartments env w = (Returns tt, w) ∧
  known_apartments (after_check env w) = known_apartments w ∧
  apartments_file (after_check env w) = apartments_file w ∧
  delivered (after_check env w) = delivered w.
Proof.
  intros Hnone. unfold after_check.
  by rewrite check_skips by auto.
Qed.

(** The wait times out over a scraper that knows a listing. *)
Lemma check_skips_empty_snapshot_timeout :
  check_for_new_apartments timed_out_cycle knows_ave_a =
    (Returns tt, knows_ave_a) ∧
  known_apartments (after_check timed_out_cycle knows_ave_a) =
    known_apartments knows_ave_a ∧
  apartments_file (after_check timed_out_cycle knows_ave_a) =
    apartments_file knows_ave_a ∧
  delivered (after_check timed_out_cycle knows_ave_a) =
    delivered knows_ave_a.
Proof.
  apply (check_skips_empty_snapshot timed_out_cycle knows_ave_a).
  reflexivity.
Defined.

Lemma apartment_dict_discovered_at apt :
  json_get (apartment_dict apt) "discovered_at" =
  Some (JStr (discovered_at apt)).
Proof. cbn. by simplify_map_eq. Qed.

(** A record that the merge has stored is a record of [current]. *)
Lemma inserted_elem_of l k apt :
  inserted ∅ l !! k = Some apt → apt ∈ l.
Proof.
  rewrite inserted_lookup, lookup_empty.
  destruct (last _) as [a|] eqn:Hlast; [|done].
  intros [= <-]. apply last_Some_elem_of in Hlast.
  by apply list_elem_of_filter in Hlast as [_ ?].
Qed.

(** C7: after a cycle that merges, every record of the known state
    carries as [discovered_at] a reading of the clock made by the
    extraction of this very cycle, whatever the known state held before,
    also under the same address. *)
Theorem check_restamps env w new_apartments merged :
  get_page env = Returns tt →
  scroll_call (driver env) = Returns tt →
  extract_apartments (page env) (now env) ≠ [] →
  diff (extract_apartments (page env) (now env)) (known_apartments w) =
    Returns (new_apartments, merged) →
  ∃ stored : gmap string json,
    known_apartments (after_check env w) = JObj stored ∧
    dom stored =
      list_to_set (address <$> extract_apartments (page env) (now env)) ∧
    ∀ k v, stored !! k = Some v →
      ∃ i, i < length (extract_apartments (page env) (now env)) ∧
           json_get v "discovered_at" = Some (JStr (now env i)).
Proof.
  intros Hget Hscroll Hcur Hdiff.
  exists (apartment_dict <$> merged).
  unfold after_check. rewrite (check_merges _ _ _ _ Hget Hscroll Hcur Hdiff).
  apply for_each_diff_merged in Hdiff as ->.
  split; [done|]. split; [by rewrite dom_fmap_L, inserted_dom|].
  intros k v. rewrite lookup_fmap.
  destruct (inserted ∅ _ !! k) as [apt|] eqn:Hk; [|done].
  intros [= <-]. apply inserted_elem_of, list_elem_of_lookup in Hk as [i Hi].
  exists i. split; [by eapply lookup_lt_Some|].
  rewrite apartment_dict_discovered_at.
  apply extract_apartments_lookup in Hi as (cs & c & _ & _ & Hc).
  by apply extract_container_Some in Hc as (_ & _ & _ & _ & _ & _ & -> & _).
Qed.

(** Scenario B one cycle later: the known listing comes back at another
    price and with the stamp of the later cycle. *)
Lemma check_restamps_scenario_B :
  ∃ stored : gmap string json,
    known_apartments
      (after_check (later_cycle [bare_listing "12 Ave A" "$3,100"] NoFault)
         knows_ave_a) = JObj stored ∧
    dom stored =
      list_to_set (address <$>
        extract_apartments
          (page (later_cycle [bare_listing "12 Ave A" "$3,100"] NoFault))
          (now (later_cycle [bare_listing "12 Ave A" "$3,100"] NoFault))) ∧
    ∀ k v, stored !! k = Some v →
      ∃ i, i < length
                 (extract_apartments
                    (page (later_cycle [bare_listing "12 Ave A" "$3,100"] NoFault))
                    (now (later_cycle [bare_listing "12 Ave A" "$3,100"] NoFault))) ∧
           json_get v "discovered_at" =
             Some (JStr (now (later_cycle [bare_listing "12 Ave A" "$3,100"] NoFault) i)).
Proof.
  apply (check_restamps
           (later_cycle [bare_listing "12 Ave A" "$3,100"] NoFault)
           knows_ave_a [] {[ "12 Ave A"%string := ave_a_again ]}).
  - reflexivity.
  - vm_compute; reflexivity.
  - vm_compute; discriminate.
  - vm_compute; reflexivity.
Defined.

(** The same cycle, evaluated: the record of scenario A is replaced by
    the one with the new price and the new stamp, the file follows, and
    no message is sent. *)
Example scenario_B_evaluated :
  after_check (later_cycle [bare_listing "12 Ave A" "$3,100"] NoFault)
    knows_ave_a =
  {| known_apartments :=
       JObj {[ "12 Ave A"%string := apartment_dict ave_a_again ]};
     apartments_file :=
       Some (Parses (JObj {[ "12 Ave A"%string := apartment_dict ave_a_again ]}));
     delivered := [NewApartments [ave_a]] |}.
Proof. vm_compute; reflexivity. Qed.

(** A cycle over records whose addresses are all known sends nothing. *)
Lemma check_known_addresses_silent env w (previous : gmap string json) :
  known_apartments w = JObj previous →
  (∀ apt, apt ∈ extract_apartments (page env) (now env) →
          address apt ∈ dom previous) →
  delivered (after_check env w) = delivered w.
Proof.
  intros Hknown Hall. unfold after_check.
  destruct (get_page env) as [u|e] eqn:Hget; [destruct u|];
    [|by rewrite check_skips by (left; congruence)].
  destruct (scroll_call (driver env)) as [u|e] eqn:Hscroll; [destruct u|];
    [|by rewrite check_skips by (right; left; congruence)].
  destruct (decide (extract_apartments (page env) (now env) = [])) as [Hcur|Hcur];
    [by rewrite check_skips by auto|].
  erewrite check_merges; [|done..|].
  2: { rewrite Hknown. unfold diff. apply for_each_diff_mapping. }
  cbn. rewrite filter_none; [done|].
  intros apt Hin Hnew. by apply Hnew, Hall.
Qed.

(** What the three kinds of write leave in the file. *)
Lemma save_apartments_cases fault apartments f :
  save_apartments fault apartments f =
  match fault with
  | NoFault => Some (Parses apartments)
  | OpenFails => f
  | DumpFails => Some Malformed
  end.
Proof. by destruct fault. Qed.

(** C10, as the code has it: in a cycle that merges while the save fails,
    the known state is the merged snapshot all the same; the file holds
    its old content when it could not be opened, and is left cut off when
    the write failed after the open; a later cycle that extracts
    addresses of this cycle only sends nothing; and where the old file
    did not hold the merged snapshot already, the file differs from the
    known state. *)
Theorem check_failed_save_diverges env w new_apartments merged :
  get_page env = Returns tt →
  scroll_call (driver env) = Returns tt →
  extract_apartments (page env) (now env) ≠ [] →
  diff (extract_apartments (page env) (now env)) (known_apartments w) =
    Returns (new_apartments, merged) →
  write_fault env ≠ NoFault →
  let w' := after_check env w in
  known_apartments w' = JObj (apartment_dict <$> merged) ∧
  apartments_file w' =
    match write_fault env with
    | OpenFails => apartments_file w
    | _ => Some Malformed
    end ∧
  (∀ env',
     (∀ apt, apt ∈ extract_apartments (page env') (now env') →
             address apt ∈
               address <$> extract_apartments (page env) (now env)) →
     delivered (after_check env' w') = delivered w') ∧
  (apartments_file w ≠ Some (Parses (known_apartments w')) →
   apartments_file w' ≠ Some (Parses (known_apartments w'))).
Proof.
  intros Hget Hscroll Hcur Hdiff Hfault. cbn zeta.
  assert (after_check env w =
          {| known_apartments := JObj (apartment_dict <$> merged);
             apartments_file :=
               save_apartments (write_fault env)
                 (JObj (apartment_dict <$> merged)) (apartments_file w);
             delivered := notified (smtp env) new_apartments (delivered w) |})
    as -> by (unfold after_check;
              by rewrite (check_merges _ _ _ _ Hget Hscroll Hcur Hdiff)).
  cbn [known_apartments apartments_file]. rewrite save_apartments_cases.
  split; [done|]. split; [by destruct (write_fault env)|]. split.
  - intros env' Hall.
    apply (check_known_addresses_silent env' _ (apartment_dict <$> merged));
      [done|].
    intros apt Hin. apply for_each_diff_merged in Hdiff as ->.
    rewrite dom_fmap_L, inserted_dom, elem_of_list_to_set. by apply Hall.
  - by destruct (write_fault env).
Qed.

(** Scenario A over a file that cannot be opened for writing: the listing
    is known in memory and notified once, and the file still holds [{}]. *)
Lemma check_failed_save_open_fails :
  known_apartments (after_check cycle_open_fails fresh) =
    JObj (apartment_dict <$> {[ "12 Ave A"%string := ave_a ]}) ∧
  apartments_file (after_check cycle_open_fails fresh) =
    match write_fault cycle_open_fails with
    | OpenFails => apartments_file fresh
    | _ => Some Malformed
    end ∧
  (∀ env',
     (∀ apt, apt ∈ extract_apartments (page env') (now env') →
             address apt ∈
               address <$> extract_apartments (page cycle_open_fails)
                             (now cycle_open_fails)) →
     delivered (after_check env' (after_check cycle_open_fails fresh)) =
     delivered (after_check cycle_open_fails fresh)) ∧
  (apartments_file fresh ≠
     Some (Parses (known_apartments (after_check cycle_open_fails fresh))) →
   apartments_file (after_check cycle_open_fails fresh) ≠
     Some (Parses (known_apartments (after_check cycle_open_fails fresh)))).
Proof.
  apply (check_failed_save_diverges cycle_open_fails fresh [ave_a]
           {[ "12 Ave A"%string := ave_a ]}).
  - reflexivity.
  - vm_compute; reflexivity.
  - vm_compute; discriminate.
  - vm_compute; reflexivity.
  - vm_compute; discriminate.
Defined.

(** C10, as the claim has it, fails when the write breaks off after the
    file was opened: the save has failed, the known state is the merged
    snapshot and the message is out, and the file has lost its old
    content. *)
Lemma check_failed_dump_loses_old_content :
  after_check cycle_dump_fails fresh =
    {| known_apartments := JObj {[ "12 Ave A"%string := apartment_dict ave_a ]};
       apartments_file := Some Malformed;
       delivered := [NewApartments [ave_a]] |} ∧
  apartments_file fresh = Some (Parses empty_dict) ∧
  apartments_file (after_check cycle_dump_fails fresh) ≠ apartments_file fresh.
Proof.
  split; [vm_compute; reflexivity|]. split; [reflexivity|].
  vm_compute; discriminate.
Qed.

(** * Further properties *)

(** ** The state file, written and read back *)

(** A save that fails at the open leaves every later load as it was; a
    save that fails after the open makes every later load return the
    empty mapping, whatever was saved and whatever the file held. *)
Theorem failed_save_then_load readable apartments f :
  load_existing_apartments readable (save_apartments OpenFails apartments f) =
    load_existing_apartments readable f ∧
  load_existing_apartments readable (save_apartments DumpFails apartments f) =
    Returns empty_dict.
Proof. split; [reflexivity | by destruct readable]. Qed.

Lemma contains_has_len v key :
  has_len v = true → ∃ b, contains v key = Returns b.
Proof. destruct v; cbn; try discriminate; eauto. Qed.

Lemma load_has_len readable f v :
  load_existing_apartments readable f = Returns v → has_len v = true.
Proof.
  destruct f as [[j| |]|]; [destruct readable| | |].
  - rewrite load_parsed. destruct j; cbn; by intros [= <-].
  - rewrite load_unreadable by done. by intros [= <-].
  - rewrite load_malformed. by intros [= <-].
  - by rewrite load_unreachable.
  - rewrite load_absent. by intros [= <-].
Qed.

(** A load that raises raised in the existence check. *)
Lemma load_raises readable f e :
  load_existing_apartments readable f = Raises e → file_exists f = Raises e.
Proof.
  pose proof (load_cases readable f) as Hcases.
  destruct (file_exists f) as [found|e']; [|congruence].
  destruct Hcases as [v ->]. discriminate.
Qed.

(** Whatever the file holds, a load that returns gives a [dict], a [list]
    or a [str], so the membership test of the diff step never raises on
    a loaded value, and a load that raises has raised in the existence
    check; a file that holds [null], a boolean or a number loads as the
    empty mapping, like a file that does not parse. *)
Theorem load_gives_a_container :
  (∀ readable f,
     match load_existing_apartments readable f with
     | Returns v =>
         has_len v = true ∧ ∀ key, ∃ b, contains v key = Returns b
     | Raises e => file_exists f = Raises e
     end) ∧
  load_existing_apartments true (Some (Parses JNull)) = Returns empty_dict ∧
  (∀ b, load_existing_apartments true (Some (Parses (JBool b))) =
        Returns empty_dict) ∧
  (∀ n, load_existing_apartments true (Some (Parses (JNum n))) =
        Returns empty_dict).
Proof.
  split; [|by repeat split].
  intros readable f.
  destruct (load_existing_apartments readable f) as [v|e] eqn:Hload.
  - pose proof (load_has_len _ _ _ Hload) as Hlen.
    split; [done|]. intros key. by apply contains_has_len.
  - by eapply load_raises.
Qed.

(** ** The cycle, case by case *)

Lemma diff_step_eq known new upd apt :
  diff_step known (new, upd) apt =
  (seen ← contains known (address apt);
   mret (if seen : bool then (new, <[address apt := apt]> upd)
         else (new ++ [apt], <[address apt := apt]> upd))).
Proof. reflexivity. Qed.

(** Against a known state with a length the diff step returns. *)
Lemma for_each_diff_has_len known current new upd :
  has_len known = true →
  ∃ new', for_each (diff_step known) (new, upd) current =
          Returns (new', inserted upd current).
Proof.
  intros Hlen. revert new upd.
  induction current as [|a l IH]; intros new upd; [by exists new|].
  cbn [for_each].
  destruct (contains_has_len known (address a) Hlen) as [b Hb].
  rewrite diff_step_eq, Hb.
  destruct b; cbn [mbind outcome_bind mret outcome_ret]; apply IH.
Qed.

Lemma diff_has_len known current :
  has_len known = true →
  ∃ new, diff current known = Returns (new, inserted ∅ current).
Proof. apply for_each_diff_has_len. Qed.

(** A cycle in which the membership test raises leaves the world alone. *)
Lemma check_diff_raises env w e :
  diff (extract_apartments (page env) (now env)) (known_apartments w) =
    Raises e →
  check_for_new_apartments env w = (Returns tt, w).
Proof.
  intros Hdiff.
  unfold check_for_new_apartments, try_cmd, call, get_known, mbind, Cmd_bind.
  destruct (get_page env) as [u|e']; [destruct u|done].
  destruct (scroll_call (driver env)) as [u|e']; [destruct u|done].
  case_bool_decide; [done|]. by rewrite Hdiff.
Qed.

(** Every cycle returns, and it either leaves the world alone or gets
    through the diff and replaces, saves and notifies. *)
Lemma check_cases env w :
  check_for_new_apartments env w = (Returns tt, w) ∨
  ∃ new_apartments merged,
    reaches_diff env ∧
    diff (extract_apartments (page env) (now env)) (known_apartments w) =
      Returns (new_apartments, merged) ∧
    check_for_new_apartments env w =
    (Returns tt,
     {| known_apartments := JObj (apartment_dict <$> merged);
        apartments_file :=
          save_apartments (write_fault env) (JObj (apartment_dict <$> merged))
            (apartments_file w);
        delivered := notified (smtp env) new_apartments (delivered w) |}).
Proof.
  destruct (get_page env) as [u|e] eqn:Hget; [destruct u|];
    [|left; apply check_skips; left; congruence].
  destruct (scroll_call (driver env)) as [u|e] eqn:Hscroll; [destruct u|];
    [|left; apply check_skips; right; left; congruence].
  destruct (decide (extract_apartments (page env) (now env) = []))
    as [Hcur|Hcur]; [left; apply check_skips; auto|].
  destruct (diff (extract_apartments (page env) (now env)) (known_apartments w))
    as [[new merged]|e] eqn:Hdiff; [|left; by eapply check_diff_raises].
  right. exists new, merged. split; [done|]. split; [done|].
  by apply check_merges.
Qed.

(** ** What a cycle does to the world *)

(** [check_for_new_apartments] never raises; and when loading the page,
    scrolling or the membership test of the diff step raises, the cycle
    ends with the known state, the state file and the delivered messages
    as they were. *)
Theorem check_never_raises_and_aborts_clean :
  (∀ env w, (check_for_new_apartments env w).1 = Returns tt) ∧
  (∀ env w e,
     get_page env = Raises e ∨
     scroll_call (driver env) = Raises e ∨
     diff (extract_apartments (page env) (now env)) (known_apartments w) =
       Raises e →
     after_check env w = w).
Proof.
  split.
  - intros env w.
    destruct (check_cases env w) as [->|(new & merged & _ & _ & ->)]; done.
  - intros env w e Hraise. unfold after_check.
    destruct Hraise as [Hget | [Hscroll | Hdiff]].
    + rewrite check_skips; [done|]. left. congruence.
    + rewrite check_skips; [done|]. right; left. congruence.
    + by rewrite (check_diff_raises _ _ _ Hdiff).
Qed.

Lemma after_check_has_len env w :
  has_len (known_apartments w) = true →
  has_len (known_apartments (after_check env w)) = true.
Proof.
  intros Hlen. unfold after_check.
  destruct (check_cases env w) as [->|(new & merged & _ & _ & ->)]; done.
Qed.

Lemma after_cycles_has_len envs w :
  has_len (known_apartments w) = true →
  has_len (known_apartments (after_cycles envs w)) = true.
Proof.
  revert w. induction envs as [|env envs IH]; intros w Hlen; [done|].
  apply IH. by apply after_check_has_len.
Qed.

(** From the start of the scraper on and through any number of cycles,
    the known state is a [dict], a [list] or a [str]: the membership test
    of the diff step never raises, so no cycle is lost to it. *)
Theorem known_state_keeps_a_length readable f w envs :
  init readable f = Returns w →
  has_len (known_apartments (after_cycles envs w)) = true ∧
  ∀ current, ∃ new,
    diff current (known_apartments (after_cycles envs w)) =
    Returns (new, inserted ∅ current).
Proof.
  unfold init.
  destruct (load_existing_apartments readable f) as [v|e] eqn:Hload;
    [|done].
  intros [= <-].
  assert (has_len (known_apartments (after_cycles envs
            {| known_apartments := v; apartments_file := f;
               delivered := [] |})) = true) as Hlen
    by (apply after_cycles_has_len; cbn; by eapply load_has_len).
  split; [done|]. intros current. by apply diff_has_len.
Qed.

Lemma known_state_keeps_a_length_example :
  has_len (known_apartments (after_cycles [cycle_open_fails; timed_out_cycle]
             {| known_apartments := JArr [JStr "12 Ave A"];
                apartments_file := Some (Parses (JArr [JStr "12 Ave A"]));
                delivered := [] |})) = true ∧
  ∀ current, ∃ new,
    diff current (known_apartments (after_cycles
                    [cycle_open_fails; timed_out_cycle]
                    {| known_apartments := JArr [JStr "12 Ave A"];
                       apartments_file :=
                         Some (Parses (JArr [JStr "12 Ave A"]));
                       delivered := [] |})) =
    Returns (new, inserted ∅ current).
Proof.
  apply (known_state_keeps_a_length true
           (Some (Parses (JArr [JStr "12 Ave A"])))).
  reflexivity.
Defined.

(** Against a known mapping a cycle sends at most one message, and the
    message lists exactly the extracted records whose address was no key
    of the mapping, in the order of the page: no message is empty and no
    known address is ever in one. *)
Theorem check_notifies_only_unknown env w (previous : gmap string json) :
  known_apartments w = JObj previous →
  delivered (after_check env w) = delivered w ∨
  ∃ new_apartments,
    delivered (after_check env w) =
      delivered w ++ [NewApartments new_apartments] ∧
    new_apartments ≠ [] ∧
    new_apartments =
      filter (λ apt, address apt ∉ dom previous)
        (extract_apartments (page env) (now env)) ∧
    ∀ apt, apt ∈ new_apartments → address apt ∉ dom previous.
Proof.
  intros Hknown. unfold after_check.
  destruct (check_cases env w) as [->|(new & merged & _ & Hdiff & ->)];
    [by left|].
  rewrite Hknown in Hdiff. unfold diff in Hdiff.
  rewrite for_each_diff_mapping in Hdiff. cbn [app] in Hdiff.
  injection Hdiff as <- _. cbn [snd delivered].
  destruct (filter _ _) as [|apt new] eqn:Hnew; [by left|].
  destruct (smtp env); [|by left].
  right. eexists. split; [done|]. split; [done|]. split; [done|].
  intros apt' Hin. rewrite <- Hnew in Hin.
  by apply list_elem_of_filter in Hin as [? _].
Qed.

Lemma check_notifies_only_unknown_example :
  delivered (after_check cycle_open_fails fresh) = delivered fresh ∨
  ∃ new_apartments,
    delivered (after_check cycle_open_fails fresh) =
      delivered fresh ++ [NewApartments new_apartments] ∧
    new_apartments ≠ [] ∧
    new_apartments =
      filter (λ apt, address apt ∉ dom (∅ : gmap string json))
        (extract_apartments (page cycle_open_fails) (now cycle_open_fails)) ∧
    ∀ apt, apt ∈ new_apartments → address apt ∉ dom (∅ : gmap string json).
Proof.
  apply (check_notifies_only_unknown cycle_open_fails fresh ∅).
  reflexivity.
Defined.

(** A merging cycle with a working mail session sends a message that
    holds each extracted record with an unknown address. *)
Lemma check_sends_unknown env w (previous : gmap string json) apt :
  reaches_diff env →
  known_apartments w = JObj previous →
  smtp env = Returns tt →
  apt ∈ extract_apartments (page env) (now env) →
  address apt ∉ dom previous →
  ∃ new_apartments,
    delivered (after_check env w) =
      delivered w ++ [NewApartments new_apartments] ∧
    apt ∈ new_apartments.
Proof.
  intros (Hget & Hscroll & Hcur) Hknown Hsmtp Hin Hnew.
  unfold after_check. erewrite check_merges; [|done..|].
  2: { rewrite Hknown. unfold diff. apply for_each_diff_mapping. }
  cbn [snd delivered app]. rewrite Hsmtp.
  assert (apt ∈ filter (λ apt, address apt ∉ dom previous)
                  (extract_apartments (page env) (now env))) as Hfil
    by (by apply list_elem_of_filter).
  destruct (filter _ _) as [|a l] eqn:Hl; [by apply elem_of_nil in Hfil|].
  eexists. split; [reflexivity | done].
Qed.

(** When the cycle gets through the page with a record whose address is
    no key of the known mapping, and the mail session works, the message
    goes out and has that record in it. *)
Theorem check_notifies_unknown env w (previous : gmap string json) apt :
  reaches_diff env →
  known_apartments w = JObj previous →
  smtp env = Returns tt →
  apt ∈ extract_apartments (page env) (now env) →
  address apt ∉ dom previous →
  ∃ new_apartments,
    delivered (after_check env w) =
      delivered w ++ [NewApartments new_apartments] ∧
    apt ∈ new_apartments.
Proof.
  intros (Hget & Hscroll & Hcur) Hknown Hsmtp Hin Hnew.
  unfold after_check. erewrite check_merges; [|done..|].
  2: { rewrite Hknown. unfold diff. apply for_each_diff_mapping. }
  cbn [snd delivered app]. rewrite Hsmtp.
  assert (apt ∈ filter (λ apt, address apt ∉ dom previous)
                  (extract_apartments (page env) (now env))) as Hfil
    by (by apply list_elem_of_filter).
  destruct (filter _ _) as [|a l] eqn:Hl; [by apply elem_of_nil in Hfil|].
  eexists. split; [reflexivity | done].
Qed.

Lemma check_notifies_unknown_example :
  ∃ new_apartments,
    delivered (after_check cycle_open_fails fresh) =
      delivered fresh ++ [NewApartments new_apartments] ∧
    ave_a ∈ new_apartments.
Proof.
  apply (check_notifies_unknown cycle_open_fails fresh ∅ ave_a).
  - split; [reflexivity|]. split; [vm_compute; reflexivity|].
    vm_compute; discriminate.
  - reflexivity.
  - reflexivity.
  - vm_compute. apply list_elem_of_here.
  - rewrite dom_empty_L. apply not_elem_of_empty.
Defined.

(** ** Cycles and restarts together *)

(** After a cycle that gets through the diff and saves without a fault,
    the file holds the known state, and a scraper started over that file
    knows exactly what the running one knows. *)
Theorem saved_state_survives_restart env w :
  reaches_diff env →
  has_len (known_apartments w) = true →
  write_fault env = NoFault →
  apartments_file (after_check env w) =
    Some (Parses (known_apartments (after_check env w))) ∧
  init true (apartments_file (after_check env w)) =
    Returns {| known_apartments := known_apartments (after_check env w);
               apartments_file := apartments_file (after_check env w);
               delivered := [] |}.
Proof.
  intros (Hget & Hscroll & Hcur) Hlen Hfault.
  destruct (diff_has_len _ (extract_apartments (page env) (now env)) Hlen)
    as [new Hdiff].
  unfold after_check.
  rewrite (check_merges _ _ _ _ Hget Hscroll Hcur Hdiff), Hfault.
  done.
Qed.

Lemma saved_state_survives_restart_example :
  apartments_file
    (after_check (sample_cycle [bare_listing "12 Ave A" "$3,000"] NoFault)
       fresh) =
    Some (Parses (known_apartments
      (after_check (sample_cycle [bare_listing "12 Ave A" "$3,000"] NoFault)
         fresh))) ∧
  init true (apartments_file
    (after_check (sample_cycle [bare_listing "12 Ave A" "$3,000"] NoFault)
       fresh)) =
    Returns
      {| known_apartments := known_apartments
           (after_check
              (sample_cycle [bare_listing "12 Ave A" "$3,000"] NoFault) fresh);
         apartments_file := apartments_file
           (after_check
              (sample_cycle [bare_listing "12 Ave A" "$3,000"] NoFault) fresh);
         delivered := [] |}.
Proof.
  apply (saved_state_survives_restart
           (sample_cycle [bare_listing "12 Ave A" "$3,000"] NoFault) fresh).
  - split; [reflexivity|]. split; [vm_compute; reflexivity|].
    vm_compute; discriminate.
  - reflexivity.
  - reflexivity.
Defined.

(** What a cycle knows and saves does not depend on the mail session. *)
Theorem state_independent_of_mail session env w :
  known_apartments (after_check (with_smtp session env) w) =
    known_apartments (after_check env w) ∧
  apartments_file (after_check (with_smtp session env) w) =
    apartments_file (after_check env w).
Proof.
  unfold after_check.
  destruct (check_cases env w) as [Hskip|(new & merged & Hreach & Hdiff & ->)].
  - rewrite Hskip.
    destruct (check_cases (with_smtp session env) w)
      as [->|(new & merged & (Hget & Hscroll & Hcur) & Hdiff & ->)]; [done|].
    cbn in Hget, Hscroll, Hcur, Hdiff.
    pose proof (check_merges env w _ _ Hget Hscroll Hcur Hdiff) as Hm.
    rewrite Hskip in Hm. apply (f_equal snd) in Hm. cbn [snd] in Hm.
    split; [exact (eq_sym (f_equal known_apartments Hm))
           | exact (eq_sym (f_equal apartments_file Hm))].
  - destruct Hreach as (Hget & Hscroll & Hcur).
    by rewrite (check_merges (with_smtp session env) w new merged).
Qed.

(** A notification that fails is lost: when the mail session raises, the
    cycle delivers nothing but still takes the extracted records as
    known, so a later cycle that extracts only addresses of this one
    delivers nothing either. *)
Theorem failed_notification_is_not_retried env w e :
  reaches_diff env →
  has_len (known_apartments w) = true →
  smtp env = Raises e →
  delivered (after_check env w) = delivered w ∧
  known_apartments (after_check env w) =
    JObj (apartment_dict <$>
            inserted ∅ (extract_apartments (page env) (now env))) ∧
  ∀ env',
    (∀ apt, apt ∈ extract_apartments (page env') (now env') →
            address apt ∈
              address <$> extract_apartments (page env) (now env)) →
    delivered (after_check env' (after_check env w)) = delivered w.
Proof.
  intros (Hget & Hscroll & Hcur) Hlen Hsmtp.
  destruct (diff_has_len _ (extract_apartments (page env) (now env)) Hlen)
    as [new Hdiff].
  assert (after_check env w =
          {| known_apartments :=
               JObj (apartment_dict <$>
                       inserted ∅ (extract_apartments (page env) (now env)));
             apartments_file :=
               save_apartments (write_fault env)
                 (JObj (apartment_dict <$>
                          inserted ∅ (extract_apartments (page env) (now env))))
                 (apartments_file w);
             delivered := delivered w |}) as ->.
  { unfold after_check.
    rewrite (check_merges _ _ _ _ Hget Hscroll Hcur Hdiff), Hsmtp.
    cbn. by destruct new. }
  split; [done|]. split; [done|].
  intros env' Hall.
  erewrite check_known_addresses_silent; [done|done|].
  intros apt Hin.
  rewrite dom_fmap_L, inserted_dom, elem_of_list_to_set. by apply Hall.
Qed.

Lemma failed_notification_is_not_retried_example :
  delivered
    (after_check (with_smtp (Raises SMTPException) cycle_open_fails) fresh) =
    delivered fresh ∧
  known_apartments
    (after_check (with_smtp (Raises SMTPException) cycle_open_fails) fresh) =
    JObj (apartment_dict <$>
            inserted ∅
              (extract_apartments
                 (page (with_smtp (Raises SMTPException) cycle_open_fails))
                 (now (with_smtp (Raises SMTPException) cycle_open_fails)))) ∧
  ∀ env',
    (∀ apt, apt ∈ extract_apartments (page env') (now env') →
            address apt ∈
              address <$>
                extract_apartments
                  (page (with_smtp (Raises SMTPException) cycle_open_fails))
                  (now (with_smtp (Raises SMTPException) cycle_open_fails))) →
    delivered
      (after_check env'
         (after_check (with_smtp (Raises SMTPException) cycle_open_fails)
            fresh)) = delivered fresh.
Proof.
  apply (failed_notification_is_not_retried
           (with_smtp (Raises SMTPException) cycle_open_fails) fresh
           SMTPException).
  - split; [reflexivity|]. split; [vm_compute; reflexivity|].
    vm_compute; discriminate.
  - reflexivity.
  - reflexivity.
Defined.

(** A listing that is off the page for one merging cycle and back in the
    next is notified again, whether or not it was known before. *)
Theorem returning_listing_is_notified_again env1 env2 w apt :
  has_len (known_apartments w) = true →
  reaches_diff env1 →
  address apt ∉ address <$> extract_apartments (page env1) (now env1) →
  reaches_diff env2 →
  apt ∈ extract_apartments (page env2) (now env2) →
  smtp env2 = Returns tt →
  ∃ new_apartments,
    delivered (after_cycles [env1; env2] w) =
      delivered (after_check env1 w) ++ [NewApartments new_apartments] ∧
    apt ∈ new_apartments.
Proof.
  intros Hlen (Hget & Hscroll & Hcur) Hgone Hreach2 Hin Hsmtp.
  destruct (diff_has_len _ (extract_apartments (page env1) (now env1)) Hlen)
    as [new Hdiff].
  cbn [after_cycles foldl].
  eapply check_sends_unknown; [done| |done|done|].
  - unfold after_check.
    by rewrite (check_merges _ _ _ _ Hget Hscroll Hcur Hdiff).
  - by rewrite dom_fmap_L, inserted_dom, elem_of_list_to_set.
Qed.

(** A cycle that extracts nothing in between does not have that effect:
    after it, a cycle over known addresses still delivers nothing. *)
Theorem empty_cycle_does_not_forget env1 env2 w (previous : gmap string json) :
  known_apartments w = JObj previous →
  extract_apartments (page env1) (now env1) = [] →
  (∀ apt, apt ∈ extract_apartments (page env2) (now env2) →
          address apt ∈ dom previous) →
  delivered (after_cycles [env1; env2] w) = delivered w.
Proof.
  intros Hknown Hnone Hall. cbn [after_cycles foldl].
  assert (after_check env1 w = w) as ->
    by (unfold after_check; by rewrite check_skips by auto).
  by eapply check_known_addresses_silent.
Qed.

(** ** The extractor, container by container *)

Lemma extract_loop_records now cs apartments ticks :
  foldl (extract_step now) (apartments, ticks) cs =
  (apartments ++ records_from now ticks cs,
   ticks + length (records_from now ticks cs)).
Proof.
  revert apartments ticks.
  induction cs as [|c cs IH]; intros apartments ticks; cbn [foldl records_from].
  - by rewrite app_nil_r, Nat.add_0_r.
  - unfold extract_step at 2.
    destruct (extract_container c (now ticks)) as [apartment|].
    + rewrite IH, <- app_assoc. cbn. f_equal. lia.
    + apply IH.
Qed.

Lemma extract_apartments_rendered cs now :
  extract_apartments (rendered cs) now = records_from now 0 cs.
Proof.
  unfold extract_apartments, rendered; cbn.
  by rewrite extract_loop_records.
Qed.

Lemma extract_container_kept c stamp :
  kept c = true →
  ∃ apt, extract_container c stamp = Some apt ∧
         address apt = address_read c.
Proof.
  unfold kept, reads_empty, extract_container, address_read.
  destruct (address_elem c) as [[a|]|]; cbn; try done.
  case_bool_decide as Ha; cbn; [done|].
  destruct (price_elem c) as [[p|]|]; cbn; try done.
  case_bool_decide as Hp; cbn; [done|]. intros _.
  destruct (String.eqb_spec a ""); [done|].
  destruct (String.eqb_spec p ""); [done|]. cbn. eauto.
Qed.

Lemma extract_container_not_kept c stamp :
  kept c = false → extract_container c stamp = None.
Proof.
  unfold kept. intros Hk%negb_false_iff. by apply extract_container_None.
Qed.

Lemma records_from_addresses now ticks cs :
  address <$> records_from now ticks cs =
  address_read <$> filter (λ c, kept c = true) cs.
Proof.
  revert ticks. induction cs as [|c cs IH]; intros ticks; [done|].
  cbn [records_from]. rewrite filter_cons.
  destruct (kept c) eqn:Hk.
  - destruct (extract_container_kept c (now ticks) Hk) as (apt & -> & Ha).
    rewrite decide_True by done. cbn. by rewrite Ha, IH.
  - rewrite extract_container_not_kept by done.
    rewrite decide_False by done. apply IH.
Qed.

Lemma extract_container_is_kept c stamp apt :
  extract_container c stamp = Some apt → kept c = true.
Proof.
  intros Hc. destruct (kept c) eqn:Hk; [done|].
  by rewrite extract_container_not_kept in Hc.
Qed.

(** The [i]-th dictionary after [ticks] readings comes from the [i]-th
    container that is not skipped. *)
Lemma records_from_lookup now ticks cs i apt :
  records_from now ticks cs !! i = Some apt →
  ∃ c, filter (λ c, kept c = true) cs !! i = Some c ∧
       extract_container c (now (ticks + i)) = Some apt.
Proof.
  revert ticks i. induction cs as [|c cs IH]; intros ticks i; [done|].
  cbn [records_from]. rewrite filter_cons.
  destruct (extract_container c (now ticks)) as [a|] eqn:Hc.
  - rewrite decide_True by (by eapply extract_container_is_kept).
    destruct i as [|i]; cbn.
    + intros [= <-]. exists c. by rewrite Nat.add_0_r.
    + intros Hi. destruct (IH _ _ Hi) as (c' & Hc' & Hapt).
      exists c'. split; [done|].
      by replace (ticks + S i) with (S ticks + i) by lia.
  - destruct (kept c) eqn:Hk.
    + destruct (extract_container_kept c (now ticks) Hk) as (a & Ha & _).
      congruence.
    + rewrite decide_False by done. apply IH.
Qed.

(** C5, as the code has it: the [i]-th dictionary of the result is built
    from the [i]-th container of the page that is not skipped, and from
    no other: it has the address and the price of that container, and
    its optional fields follow that container.  Bedrooms and
    availability are what was read there, or ["Unknown"] when the read
    raised; the url is the listing-index URL when the read of the link
    raised, the link with the site origin before it when the link is a
    non-empty string that does not start with ["http"], and the link as
    it was read otherwise (absolute, empty or [None]). *)
Theorem extract_apartments_fallbacks p now i apt :
  extract_apartments p now !! i = Some apt →
  ∃ cs c,
    find_containers p = Returns cs ∧
    filter (λ c, kept c = true) cs !! i = Some c ∧
    extract_container c (now i) = Some apt ∧
    address_elem c = Returns (Some (address apt)) ∧
    price_elem c = Returns (Some (price apt)) ∧
    match bedrooms_elem c with
    | Raises _ => bedrooms apt = Some "Unknown"%string
    | Returns v => bedrooms apt = v
    end ∧
    match availability_elem c with
    | Raises _ => availability apt = Some "Unknown"%string
    | Returns v => availability apt = v
    end ∧
    match url_elem c with
    | Raises _ => url apt = Some STUYTOWN_URL
    | Returns None => url apt = None
    | Returns (Some u) =>
        url apt =
        Some (if bool_decide (u = ""%string) || startswith u "http"
              then u else SITE_ORIGIN +:+ u)
    end.
Proof.
  unfold extract_apartments.
  destruct (wait_for_listings p); cbn; [|by rewrite lookup_nil].
  destruct (find_containers p) as [cs|]; cbn; [|by rewrite lookup_nil].
  rewrite extract_loop_records. cbn [fst app].
  intros (c & Hkept & Hc)%records_from_lookup. cbn in Hc.
  exists cs, c. split; [done|]. split; [done|]. split; [done|].
  apply extract_container_Some in Hc
    as (Haddr & _ & Hprice & _ & Hbed & Hav & _ & Hurl).
  split; [done|]. split; [done|]. split; [|split].
  - by destruct (bedrooms_elem c).
  - by destruct (availability_elem c).
  - destruct (url_elem c) as [[u|]|]; cbn in Hurl; try done.
    rewrite Hurl. destruct (String.eqb_spec u "") as [Hu|Hu]; cbn.
    + by rewrite bool_decide_eq_true_2.
    + rewrite bool_decide_eq_false_2 by done. cbn.
      by destruct (startswith u "http").
Qed.

(** The page with a relative link, a skipped container and a bare
    listing, evaluated: the link gets the site origin, the bare listing
    gets ["Unknown"] twice and the listing-index URL, and neither
    dictionary takes a field from the other's container. *)
Example mixed_page_evaluated :
  extract_apartments mixed_page sample_clock = [ave_a_linked; ave_b].
Proof. vm_compute; reflexivity. Qed.

(** The two dictionaries of that page: the first with the rewritten
    link, the second with the three fallbacks. *)
Lemma extract_apartments_fallbacks_example :
  (∃ cs c,
    find_containers mixed_page = Returns cs ∧
    filter (λ c, kept c = true) cs !! 0 = Some c ∧
    extract_container c (sample_clock 0) = Some ave_a_linked ∧
    address_elem c = Returns (Some (address ave_a_linked)) ∧
    price_elem c = Returns (Some (price ave_a_linked)) ∧
    match bedrooms_elem c with
    | Raises _ => bedrooms ave_a_linked = Some "Unknown"%string
    | Returns v => bedrooms ave_a_linked = v
    end ∧
    match availability_elem c with
    | Raises _ => availability ave_a_linked = Some "Unknown"%string
    | Returns v => availability ave_a_linked = v
    end ∧
    match url_elem c with
    | Raises _ => url ave_a_linked = Some STUYTOWN_URL
    | Returns None => url ave_a_linked = None
    | Returns (Some u) =>
        url ave_a_linked =
        Some (if bool_decide (u = ""%string) || startswith u "http"
              then u else SITE_ORIGIN +:+ u)
    end) ∧
  (∃ cs c,
    find_containers mixed_page = Returns cs ∧
    filter (λ c, kept c = true) cs !! 1 = Some c ∧
    extract_container c (sample_clock 1) = Some ave_b ∧
    address_elem c = Returns (Some (address ave_b)) ∧
    price_elem c = Returns (Some (price ave_b)) ∧
    match bedrooms_elem c with
    | Raises _ => bedrooms ave_b = Some "Unknown"%string
    | Returns v => bedrooms ave_b = v
    end ∧
    match availability_elem c with
    | Raises _ => availability ave_b = Some "Unknown"%string
    | Returns v => availability ave_b = v
    end ∧
    match url_elem c with
    | Raises _ => url ave_b = Some STUYTOWN_URL
    | Returns None => url ave_b = None
    | Returns (Some u) =>
        url ave_b =
        Some (if bool_decide (u = ""%string) || startswith u "http"
              then u else SITE_ORIGIN +:+ u)
    end).
Proof.
  split.
  - apply (extract_apartments_fallbacks mixed_page sample_clock 0
             ave_a_linked).
    vm_compute; reflexivity.
  - apply (extract_apartments_fallbacks mixed_page sample_clock 1 ave_b).
    vm_compute; reflexivity.
Defined.

(** No listing with an address and a price is dropped, reordered or
    merged: on a page that rendered, the addresses of the result are the
    addresses of the containers whose address and price are non-empty,
    one for one and in the order of the page, whatever the other three
    fields of any container do. *)
Theorem extract_apartments_keeps_every_valid_container cs now :
  address <$> extract_apartments (rendered cs) now =
    address_read <$> filter (λ c, kept c = true) cs ∧
  length (extract_apartments (rendered cs) now) =
    length (filter (λ c, kept c = true) cs).
Proof.
  rewrite extract_apartments_rendered.
  pose proof (records_from_addresses now 0 cs) as Haddr.
  split; [done|].
  apply (f_equal length) in Haddr. by rewrite !length_fmap in Haddr.
Qed.

Lemma records_from_app now ticks cs1 cs2 :
  records_from now ticks (cs1 ++ cs2) =
  records_from now ticks cs1 ++
  records_from now (ticks + length (records_from now ticks cs1)) cs2.
Proof.
  revert ticks. induction cs1 as [|c cs1 IH]; intros ticks; cbn.
  - by rewrite Nat.add_0_r.
  - destruct (extract_container c (now ticks)); cbn.
    + rewrite IH. do 3 f_equal. lia.
    + apply IH.
Qed.

Lemma records_from_shift now ticks cs :
  records_from now ticks cs = records_from (λ k, now (ticks + k)) 0 cs.
Proof.
  rewrite <- (Nat.add_0_r ticks) at 1. generalize 0 as t.
  induction cs as [|c cs IH]; intros t; cbn; [done|].
  destruct (extract_container c (now (ticks + t))).
  - f_equal. rewrite <- IH. f_equal. lia.
  - apply IH.
Qed.

(** The pass over a page is the pass over its first part followed by the
    pass over the rest with the clock where the first part left it. *)
Theorem extract_apartments_app cs1 cs2 now :
  extract_apartments (rendered (cs1 ++ cs2)) now =
  extract_apartments (rendered cs1) now ++
  extract_apartments (rendered cs2)
    (λ k, now (length (extract_apartments (rendered cs1) now) + k)).
Proof.
  rewrite !extract_apartments_rendered, records_from_app. f_equal.
  apply records_from_shift.
Qed.

Lemma records_from_stamps now ticks cs :
  discovered_at <$> records_from now ticks cs =
  now <$> seq ticks (length (records_from now ticks cs)).
Proof.
  revert ticks. induction cs as [|c cs IH]; intros ticks; cbn; [done|].
  destruct (extract_container c (now ticks)) as [apt|] eqn:Hc; cbn.
  - apply extract_container_Some in Hc
      as (_ & _ & _ & _ & _ & _ & -> & _).
    by rewrite IH.
  - apply IH.
Qed.

(** The clock is read once for each dictionary and not once for each
    container: the stamps of the result are the first readings of the
    clock, in order, as many as there are dictionaries. *)
Theorem extract_apartments_stamps p now :
  discovered_at <$> extract_apartments p now =
  now <$> seq 0 (length (extract_apartments p now)).
Proof.
  unfold extract_apartments.
  destruct (wait_for_listings p); cbn; [|done].
  destruct (find_containers p) as [cs|]; cbn; [|done].
  rewrite extract_loop_records. cbn. apply records_from_stamps.
Qed.

(** Every link that a dictionary carries is absolute, empty or [None]:
    no relative link gets into a notification. *)
Theorem extract_apartments_links_absolute p now apt :
  apt ∈ extract_apartments p now →
  url apt = None ∨ url apt = Some ""%string ∨
  ∃ u, url apt = Some u ∧ startswith u "http" = true.
Proof.
  intros [i Hi]%list_elem_of_lookup.
  apply extract_apartments_lookup in Hi as (cs & c & _ & _ & Hc).
  apply extract_container_Some in Hc as (_ & _ & _ & _ & _ & _ & _ & ->).
  destruct (url_elem c) as [[u|]|]; cbn.
  - destruct (String.eqb_spec u "") as [->|Hu]; cbn; [auto|].
    destruct (startswith u "http") eqn:Hhttp; cbn; right; right; eauto.
  - auto.
  - right; right. eauto.
Qed.

Lemma extract_apartments_links_absolute_example :
  url ave_a = None ∨ url ave_a = Some ""%string ∨
  ∃ u, url ave_a = Some u ∧ startswith u "http" = true.
Proof.
  apply (extract_apartments_links_absolute
           (rendered [bare_listing "12 Ave A" "$3,000"]) sample_clock ave_a).
  vm_compute. apply list_elem_of_here.
Defined.

(** ** The page enumerator, once more *)

(** A loop that ends with an exception ends at the call that raised it. *)
Lemma scroll_loop_aborted d last_height scroll_count e :
  ending (scroll_loop d last_height scroll_count) = Aborted e →
  scroll_bottom d (scrolls (scroll_loop d last_height scroll_count)) =
    Raises e ∨
  scroll_height d (scrolls (scroll_loop d last_height scroll_count)) =
    Raises e.
Proof.
  funelim (scroll_loop d last_height scroll_count);
    try rewrite <- Heqcall; cbn; try discriminate; try done.
  - intros [= <-]. by left.
  - intros [= <-]. by right.
  - eauto.
Qed.

(** [scroll_to_load_all] raises only what the driver raised: a run that
    is cut short was cut short by the scroll command or the measurement
    that came last, and that call raised the very exception. *)
Theorem scroll_aborts_only_with_the_driver d e :
  ending (scroll_to_load_all d) = Aborted e →
  scroll_call d = Raises e ∧
  (scroll_bottom d (scrolls (scroll_to_load_all d)) = Raises e ∨
   scroll_height d (scrolls (scroll_to_load_all d)) = Raises e).
Proof.
  intros Hend. split; [unfold scroll_call; by rewrite Hend|].
  revert Hend. unfold scroll_to_load_all.
  destruct (scroll_height d 0) as [h|e0] eqn:Hfirst.
  - apply scroll_loop_aborted.
  - cbn. intros [= <-]. by right.
Qed.

Lemma scroll_aborts_only_with_the_driver_example :
  scroll_call breaks_at_third = Raises WebDriverException ∧
  (scroll_bottom breaks_at_third (scrolls (scroll_to_load_all breaks_at_third)) =
     Raises WebDriverException ∨
   scroll_height breaks_at_third (scrolls (scroll_to_load_all breaks_at_third)) =
     Raises WebDriverException).
Proof.
  apply (scroll_aborts_only_with_the_driver breaks_at_third WebDriverException).
  vm_compute. reflexivity.
Defined.

(** With a driver that answers every call up to there, the loop ends at
    the first measurement that equals the one before it, if that comes
    within the first 51 scrolls: after [S k] scrolls, with "No more
    content". *)
Theorem scroll_stops_at_first_settled d k :
  (∀ j, j ≤ S k → ∃ h, scroll_height d j = Returns h) →
  (∀ j, j ≤ S k → scroll_bottom d j = Returns tt) →
  settled d k →
  (∀ j, j < k → ¬ settled d j) →
  k ≤ 50 →
  scroll_to_load_all d = {| scrolls := S k; ending := NoMoreContent |}.
Proof.
  intros Hheights Hscrolls Hk Hfirst Hle.
  destruct (Hheights 0 ltac:(lia)) as [h0 Hh0].
  pose proof (scroll_loop_spec d h0 0 Hh0 ltac:(lia)) as Hspec.
  pose proof (scroll_loop_aborted d h0 0) as Haborted.
  unfold scroll_to_load_all. rewrite Hh0.
  destruct (scroll_loop d h0 0) as [n r]; cbn in *.
  destruct Hspec as (Hb & Hpast & Hstop & Hcap).
  assert (n ≤ S k) as Hn.
  { destruct (decide (n ≤ S k)) as [|Hgt]; [done|].
    destruct (Hpast k ltac:(lia) ltac:(lia) Hk). }
  destruct r as [| |e].
  - destruct (Hstop eq_refl) as (k' & -> & Hk').
    destruct (decide (k' = k)) as [->|Hne]; [done|].
    destruct (Hfirst k' ltac:(lia) Hk').
  - destruct (Hcap eq_refl) as [-> Hlast].
    assert (k = 50) as -> by lia. done.
  - destruct (Haborted e eq_refl) as [Hraise|Hraise].
    + rewrite Hscrolls in Hraise by done. discriminate.
    + destruct (Hheights n Hn) as [h Hh]. congruence.
Qed.

Lemma scroll_stops_at_first_settled_example :
  scroll_to_load_all (settles_after 2) =
  {| scrolls := 3; ending := NoMoreContent |}.
Proof.
  apply (scroll_stops_at_first_settled (settles_after 2) 2).
  - intros j _. eexists. reflexivity.
  - intros j _. reflexivity.
  - exists 2%Z. split; reflexivity.
  - intros j Hj (h & H1 & H2).
    assert (j = 0 ∨ j = 1) as [-> | ->] by lia;
      vm_compute in H1, H2; congruence.
  - lia.
Defined.

(** ** The notifier *)

(** [send_email_notification] never raises and touches nothing but the
    delivered messages: it adds one message when the session works and
    there is something to send (a test, or a non-empty list), and
    nothing when the session raises or when the list is empty outside
    test mode. *)
Theorem send_email_notification_frame session new_apartments test_mode w :
  ∃ w',
    send_email_notification session new_apartments test_mode w =
      (Returns tt, w') ∧
    known_apartments w' = known_apartments w ∧
    apartments_file w' = apartments_file w ∧
    delivered w' =
      match session with
      | Returns _ =>
          if test_mode then delivered w ++ [TestEmail]
          else if bool_decide (new_apartments = []) then delivered w
          else delivered w ++ [NewApartments new_apartments]
      | Raises _ => delivered w
      end.
Proof.
  unfold send_email_notification, try_cmd, sendmail.
  destruct test_mode, session as [u|e];
    try case_bool_decide; cbn; eauto 10.
Qed.

(** ** The mode that saves a baseline *)

Lemma dict_by_address_inserted current :
  dict_by_address current = inserted ∅ current.
Proof. reflexivity. Qed.

(** What [save_initial_apartments] leaves, case by case. *)
Lemma save_initial_apartments_cases launch env quit p :
  ∃ w' b',
    (save_initial_apartments launch env quit p).2 =
      {| world := w'; browser := b' |} ∧
    delivered w' = delivered (world p) ∧
    (w' = world p ∨
     launch = Returns tt ∧ reaches_diff env ∧
     w' = {| known_apartments :=
               JObj (apartment_dict <$>
                 inserted ∅ (extract_apartments (page env) (now env)));
             apartments_file :=
               save_apartments (write_fault env)
                 (JObj (apartment_dict <$>
                    inserted ∅ (extract_apartments (page env) (now env))))
                 (apartments_file (world p));
             delivered := delivered (world p) |}).
Proof.
  destruct p as [w b].
  unfold save_initial_apartments, try_finally, try_run, setup_driver,
    quit_driver, in_world, call, set_known, get_known, do_save,
    mbind, Run_bind, Cmd_bind, mret, Run_ret, Cmd_ret.
  destruct launch as [u|e]; [destruct u|]; cbn.
  - destruct (get_page env) as [u'|e] eqn:Hget; [destruct u'|]; cbn.
    + destruct (scroll_call (driver env)) as [u'|e] eqn:Hscroll;
        [destruct u'|]; cbn.
      * case_bool_decide as Hcur; cbn.
        -- destruct quit; cbn; eauto 10.
        -- destruct quit; cbn; do 2 eexists;
             (split; [reflexivity|]); (split; [reflexivity|]);
             right; (split; [done|]); (split; [done|]); reflexivity.
      * destruct quit; cbn; eauto 10.
    + destruct quit; cbn; eauto 10.
  - destruct b, quit; cbn; eauto 10.
Qed.

(** [save_initial_apartments] never sends a message; and when the
    browser starts, it leaves the known state and the state file exactly
    as a monitoring cycle over the same page would. *)
Theorem save_initial_apartments_is_a_silent_check launch env quit p :
  delivered (world (save_initial_apartments launch env quit p).2) =
    delivered (world p) ∧
  (launch = Returns tt →
   has_len (known_apartments (world p)) = true →
   known_apartments (world (save_initial_apartments launch env quit p).2) =
     known_apartments (after_check env (world p)) ∧
   apartments_file (world (save_initial_apartments launch env quit p).2) =
     apartments_file (after_check env (world p))).
Proof.
  split.
  - destruct (save_initial_apartments_cases launch env quit p)
      as (w' & b' & -> & Hd & _). done.
  - intros -> Hlen.
    destruct p as [w b]. cbn [world] in *.
    destruct (diff_has_len _ (extract_apartments (page env) (now env)) Hlen)
      as [new Hdiff].
    unfold save_initial_apartments, try_finally, try_run, setup_driver,
      quit_driver, in_world, call, set_known, get_known, do_save,
      mbind, Run_bind, Cmd_bind, mret, Run_ret, Cmd_ret.
    unfold after_check. cbn.
    destruct (get_page env) as [u'|e] eqn:Hget; [destruct u'|]; cbn.
    2: { rewrite check_skips by (left; congruence). by destruct quit. }
    destruct (scroll_call (driver env)) as [u'|e] eqn:Hscroll;
      [destruct u'|]; cbn.
    2: { rewrite check_skips by (right; left; congruence). by destruct quit. }
    case_bool_decide as Hcur; cbn.
    + rewrite check_skips by auto. by destruct quit.
    + rewrite (check_merges _ _ _ _ Hget Hscroll Hcur Hdiff).
      by destruct quit.
Qed.

Lemma save_initial_apartments_is_a_silent_check_example :
  known_apartments (world (save_initial_apartments (Returns tt)
     (sample_cycle [bare_listing "12 Ave A" "$3,000"] NoFault) (Returns tt)
     (started fresh)).2) =
    known_apartments
      (after_check (sample_cycle [bare_listing "12 Ave A" "$3,000"] NoFault)
         (world (started fresh))) ∧
  apartments_file (world (save_initial_apartments (Returns tt)
     (sample_cycle [bare_listing "12 Ave A" "$3,000"] NoFault) (Returns tt)
     (started fresh)).2) =
    apartments_file
      (after_check (sample_cycle [bare_listing "12 Ave A" "$3,000"] NoFault)
         (world (started fresh))).
Proof.
  apply (proj2 (save_initial_apartments_is_a_silent_check (Returns tt)
           (sample_cycle [bare_listing "12 Ave A" "$3,000"] NoFault)
           (Returns tt) (started fresh))); reflexivity.
Defined.

(** After a baseline was saved from a page with listings, a monitoring
    cycle that extracts only addresses of that page sends nothing: the
    baseline keeps the first cycle from announcing every listing. *)
Theorem baseline_silences_the_first_check launch env quit p env' :
  launch = Returns tt →
  reaches_diff env →
  (∀ apt, apt ∈ extract_apartments (page env') (now env') →
          address apt ∈ address <$> extract_apartments (page env) (now env)) →
  delivered
    (after_check env' (world (save_initial_apartments launch env quit p).2)) =
  delivered (world p).
Proof.
  intros -> (Hget & Hscroll & Hcur) Hall.
  destruct p as [w b].
  unfold save_initial_apartments, try_finally, try_run, setup_driver,
    quit_driver, in_world, call, set_known, get_known, do_save,
    mbind, Run_bind, Cmd_bind, mret, Run_ret, Cmd_ret.
  cbn. rewrite Hget, Hscroll. cbn.
  rewrite bool_decide_eq_false_2 by done. cbn.
  assert (delivered (after_check env'
            {| known_apartments :=
                 JObj (apartment_dict <$>
                   dict_by_address (extract_apartments (page env) (now env)));
               apartments_file :=
                 save_apartments (write_fault env)
                   (JObj (apartment_dict <$>
                      dict_by_address
                        (extract_apartments (page env) (now env))))
                   (apartments_file w);
               delivered := delivered w |}) = delivered w) as Hsilent.
  { erewrite check_known_addresses_silent; [done|done|].
    intros apt Hin. rewrite dom_fmap_L, dict_by_address_inserted,
      inserted_dom, elem_of_list_to_set. by apply Hall. }
  destruct quit; cbn; exact Hsilent.
Qed.

Lemma baseline_silences_the_first_check_example :
  delivered
    (after_check (later_cycle [bare_listing "12 Ave A" "$3,100"] NoFault)
       (world (save_initial_apartments (Returns tt)
                 (sample_cycle [bare_listing "12 Ave A" "$3,000"] NoFault)
                 (Returns tt) (started fresh)).2)) =
  delivered (world (started fresh)).
Proof.
  apply (baseline_silences_the_first_check (Returns tt)
           (sample_cycle [bare_listing "12 Ave A" "$3,000"] NoFault)
           (Returns tt) (started fresh)
           (later_cycle [bare_listing "12 Ave A" "$3,100"] NoFault)).
  - reflexivity.
  - split; [reflexivity|]. split; [vm_compute; reflexivity|].
    vm_compute; discriminate.
  - intros apt Hin.
    change (apt ∈ [ave_a_again]) in Hin.
    apply list_elem_of_singleton in Hin as ->.
    change ("12 Ave A"%string ∈ ["12 Ave A"%string]).
    apply list_elem_of_here.
Defined.

(** ** The monitoring loop and the browser *)

Lemma check_returns env w :
  check_for_new_apartments env w = (Returns tt, after_check env w).
Proof.
  unfold after_check.
  destruct (check_cases env w) as [->|(new & merged & _ & _ & ->)]; done.
Qed.

Lemma monitor_after_cycles envs w :
  monitor envs w = (Returns tt, after_cycles envs w).
Proof.
  revert w. induction envs as [|env envs IH]; intros w; [done|].
  cbn [monitor after_cycles foldl]. unfold mbind, Cmd_bind.
  rewrite check_returns. apply IH.
Qed.

(** [run] is the cycles one after the other on the world of the scraper,
    and no cycle at all when the browser does not start: then the known
    state, the file and the delivered messages stay as they were. *)
Theorem run_is_the_cycles_in_turn launch envs quit p :
  world (run launch envs quit p).2 =
  match launch with
  | Returns _ => after_cycles envs (world p)
  | Raises _ => world p
  end.
Proof.
  destruct p as [w b].
  unfold run, try_finally, try_run, setup_driver, quit_driver, in_world,
    mbind, Run_bind, mret, Run_ret.
  destruct launch as [u|e]; cbn.
  - rewrite monitor_after_cycles. by destruct quit.
  - by destruct b, quit.
Qed.

(** Neither [run] nor [save_initial_apartments] leaves a browser
    running when [quit()] works, whether or not the browser started and
    whatever the page did, and both return; when the browser started and
    [quit()] raises, that exception leaves the function. *)
Theorem browser_is_released launch env envs p :
  ((run launch envs (Returns tt) p).1 = Returns tt ∧
   browser (run launch envs (Returns tt) p).2 ≠ Running) ∧
  ((save_initial_apartments launch env (Returns tt) p).1 = Returns tt ∧
   browser (save_initial_apartments launch env (Returns tt) p).2 ≠ Running) ∧
  ∀ e,
    (run (Returns tt) envs (Raises e) p).1 = Raises e ∧
    (save_initial_apartments (Returns tt) env (Raises e) p).1 = Raises e.
Proof.
  destruct p as [w b].
  unfold run, save_initial_apartments, try_finally, try_run, setup_driver,
    quit_driver, in_world, call, set_known, get_known, do_save,
    mbind, Run_bind, mret, Run_ret.
  split; [|split].
  - destruct launch as [u|e]; cbn.
    + by rewrite monitor_after_cycles.
    + by destruct b.
  - destruct launch as [u|e]; cbn; [|by destruct b].
    unfold Cmd_bind, Cmd_ret.
    destruct (get_page env); cbn; [|done].
    destruct (scroll_call (driver env)); cbn; [|done].
    by case_bool_decide.
  - intros e. cbn. rewrite monitor_after_cycles. split; [done|].
    unfold Cmd_bind, Cmd_ret.
    destruct (get_page env); cbn; [|done].
    destruct (scroll_call (driver env)); cbn; [|done].
    by case_bool_decide.
Qed.

(** ** The command line *)

(** The flag that saves a baseline wins over the flag of the test email.
    When the scraper can be built, the test mode starts no browser,
    leaves the file alone and delivers the test message if the mail
    session works and nothing if it does not.  When the load raises (in
    the existence check of the state file), the program ends with that
    exception before any mode runs, whatever the flags. *)
Theorem main_modes o :
  main true true o = main true false o ∧
  (∀ known,
     load_existing_apartments (readable o) (state_file o) = Returns known →
     main false true o =
     Returns {| world :=
                  {| known_apartments := known;
                     apartments_file := state_file o;
                     delivered :=
                       match test_session o with
                       | Returns _ => [TestEmail]
                       | Raises _ => []
                       end |};
                browser := NoDriver |}) ∧
  (∀ e,
     load_existing_apartments (readable o) (state_file o) = Raises e →
     ∀ save_apartments_flag test_email_flag,
       main save_apartments_flag test_email_flag o = Raises e).
Proof.
  split; [reflexivity|]. split.
  - intros known Hload. unfold main, init. rewrite Hload. cbn.
    by destruct (test_session o).
  - intros e Hload save_flag test_flag. unfold main, init.
    by rewrite Hload.
Qed.

Lemma main_modes_example :
  main false true calm_outside =
    Returns {| world :=
                 {| known_apartments := empty_dict;
                    apartments_file := state_file calm_outside;
                    delivered :=
                      match test_session calm_outside with
                      | Returns _ => [TestEmail]
                      | Raises _ => []
                      end |};
               browser := NoDriver |} ∧
  ∀ save_apartments_flag test_email_flag,
    main save_apartments_flag test_email_flag locked_outside = Raises OSError.
Proof.
  split.
  - apply (proj1 (proj2 (main_modes calm_outside)) empty_dict).
    reflexivity.
  - apply (proj2 (proj2 (main_modes locked_outside)) OSError).
    reflexivity.
Defined.

(** In the monitoring mode, when the scraper can be built and the
    browser starts and closes, the program ends with the world that the
    cycles leave, started from what the state file loaded to. *)
Theorem main_monitors_from_the_loaded_state o known :
  load_existing_apartments (readable o) (state_file o) = Returns known →
  launch o = Returns tt →
  quit o = Returns tt →
  main false false o =
  Returns {| world :=
               after_cycles (cycles o)
                 {| known_apartments := known;
                    apartments_file := state_file o;
                    delivered := [] |};
             browser := Closed |}.
Proof.
  intros Hload Hlaunch Hquit.
  unfold main, init. rewrite Hload. cbn.
  unfold run, try_finally, try_run, setup_driver, quit_driver, in_world,
    mbind, Run_bind, mret, Run_ret.
  rewrite Hlaunch, Hquit. cbn. by rewrite monitor_after_cycles.
Qed.

Lemma main_monitors_from_the_loaded_state_example :
  main false false calm_outside =
  Returns {| world :=
               after_cycles (cycles calm_outside)
                 {| known_apartments := empty_dict;
                    apartments_file := state_file calm_outside;
                    delivered := [] |};
             browser := Closed |}.
Proof.
  apply (main_monitors_from_the_loaded_state calm_outside empty_dict);
    reflexivity.
Defined.

(** ** The text of a message *)

Lemma append_nil s : "" +:+ s = s.
Proof. reflexivity. Qed.

Lemma append_cons a k s : String a k +:+ s = String a (k +:+ s).
Proof. reflexivity. Qed.

Lemma prefix_nil s : String.prefix "" s = true.
Proof. by destruct s. Qed.

Lemma prefix_cons a k b s :
  String.prefix (String a k) (String b s) =
  if Ascii.ascii_dec a b then String.prefix k s else false.
Proof. reflexivity. Qed.

Lemma prefix_app_l k s : String.prefix k (k +:+ s) = true.
Proof.
  induction k as [|a k IH]; [apply prefix_nil|].
  rewrite append_cons, prefix_cons.
  by destruct (Ascii.ascii_dec a a).
Qed.

Lemma prefix_app_r k s t :
  String.prefix k s = true → String.prefix k (s +:+ t) = true.
Proof.
  revert s. induction k as [|a k IH]; intros s; [intros _; apply prefix_nil|].
  destruct s as [|b s]; [done|].
  rewrite append_cons, !prefix_cons.
  destruct (Ascii.ascii_dec a b); [apply IH | done].
Qed.

Lemma occurs_in_cons k b s :
  occurs_in k (String b s) = String.prefix k (String b s) || occurs_in k s.
Proof. reflexivity. Qed.

Lemma occurs_in_app_l k s t :
  occurs_in k s = true → occurs_in k (s +:+ t) = true.
Proof.
  induction s as [|b s IH].
  - cbn. rewrite orb_false_r. destruct k; [|done].
    intros _. rewrite append_nil. by destruct t.
  - rewrite append_cons, !occurs_in_cons.
    intros [Hp|Hs]%orb_true_iff.
    + apply (prefix_app_r _ _ t) in Hp. rewrite append_cons in Hp.
      by rewrite Hp.
    + rewrite IH by done. apply orb_true_r.
Qed.

Lemma occurs_in_app_r k s t :
  occurs_in k t = true → occurs_in k (s +:+ t) = true.
Proof.
  intros Hk. induction s as [|b s IH]; [by rewrite append_nil|].
  rewrite append_cons, occurs_in_cons, IH. apply orb_true_r.
Qed.

Lemma occurs_in_here k s : occurs_in k (k +:+ s) = true.
Proof.
  pose proof (prefix_app_l k s) as Hp.
  destruct (k +:+ s) as [|b u];
    [cbn [occurs_in] | rewrite occurs_in_cons]; by rewrite Hp.
Qed.

Lemma add_listing_keeps k body apt :
  occurs_in k body = true → occurs_in k (add_listing body apt) = true.
Proof.
  intros Hk. unfold add_listing. by do 5 apply occurs_in_app_l.
Qed.

Lemma add_listing_shows body apt :
  occurs_in (address apt) (add_listing body apt) = true ∧
  occurs_in (price apt) (add_listing body apt) = true ∧
  occurs_in (formatted (bedrooms apt)) (add_listing body apt) = true ∧
  occurs_in (discovered_at apt) (add_listing body apt) = true ∧
  occurs_in (formatted (url apt)) (add_listing body apt) = true.
Proof.
  unfold add_listing. repeat split.
  - do 4 apply occurs_in_app_l. do 2 apply occurs_in_app_r.
    apply occurs_in_here.
  - do 3 apply occurs_in_app_l. do 2 apply occurs_in_app_r.
    apply occurs_in_here.
  - do 2 apply occurs_in_app_l. do 2 apply occurs_in_app_r.
    apply occurs_in_here.
  - apply occurs_in_app_l. do 2 apply occurs_in_app_r.
    apply occurs_in_here.
  - do 2 apply occurs_in_app_r. apply occurs_in_here.
Qed.

(** The body of a message about new listings names every one of them:
    the address, the price, the bedrooms, the time of discovery and the
    link of each listing of the message occur in the text. *)
Theorem message_body_shows_every_listing new_apartments apt :
  apt ∈ new_apartments →
  occurs_in (address apt) (message_body (NewApartments new_apartments)) = true ∧
  occurs_in (price apt) (message_body (NewApartments new_apartments)) = true ∧
  occurs_in (formatted (bedrooms apt))
    (message_body (NewApartments new_apartments)) = true ∧
  occurs_in (discovered_at apt)
    (message_body (NewApartments new_apartments)) = true ∧
  occurs_in (formatted (url apt))
    (message_body (NewApartments new_apartments)) = true.
Proof.
  cbn [message_body].
  induction new_apartments as [|x l IH] using rev_ind;
    [by intros ?%elem_of_nil|].
  rewrite foldl_app. cbn [foldl].
  intros [Hin| ->%list_elem_of_singleton]%elem_of_app.
  - destruct (IH Hin) as (H1 & H2 & H3 & H4 & H5).
    repeat split; by apply add_listing_keeps.
  - apply add_listing_shows.
Qed.

Lemma message_body_shows_every_listing_example :
  occurs_in (address ave_a) (message_body (NewApartments [ave_a])) = true ∧
  occurs_in (price ave_a) (message_body (NewApartments [ave_a])) = true ∧
  occurs_in (formatted (bedrooms ave_a))
    (message_body (NewApartments [ave_a])) = true ∧
  occurs_in (discovered_at ave_a)
    (message_body (NewApartments [ave_a])) = true ∧
  occurs_in (formatted (url ave_a))
    (message_body (NewApartments [ave_a])) = true.
Proof.
  apply (message_body_shows_every_listing [ave_a] ave_a).
  apply list_elem_of_here.
Defined.

(** ** Two cycles in a row, on the samples *)

Lemma returning_listing_is_notified_again_example :
  ∃ new_apartments,
    delivered (after_cycles [cycle_ave_b; cycle_ave_a_again] knows_ave_a) =
      delivered (after_check cycle_ave_b knows_ave_a) ++
        [NewApartments new_apartments] ∧
    ave_a_again ∈ new_apartments.
Proof.
  apply (returning_listing_is_notified_again
           cycle_ave_b cycle_ave_a_again knows_ave_a ave_a_again).
  - reflexivity.
  - split; [reflexivity|]. split; [vm_compute; reflexivity|].
    vm_compute; discriminate.
  - change ("12 Ave A"%string ∉ ["14 Ave B"%string]).
    apply not_elem_of_cons. split; [discriminate | apply not_elem_of_nil].
  - split; [reflexivity|]. split; [vm_compute; reflexivity|].
    vm_compute; discriminate.
  - change (ave_a_again ∈ [ave_a_again]). apply list_elem_of_here.
  - reflexivity.
Defined.

Lemma empty_cycle_does_not_forget_example :
  delivered (after_cycles [timed_out_cycle; cycle_ave_a_again] knows_ave_a) =
  delivered knows_ave_a.
Proof.
  apply (empty_cycle_does_not_forget timed_out_cycle cycle_ave_a_again
           knows_ave_a {[ "12 Ave A"%string := apartment_dict ave_a ]}).
  - reflexivity.
  - reflexivity.
  - intros apt Hin. change (apt ∈ [ave_a_again]) in Hin.
    apply list_elem_of_singleton in Hin as ->.
    rewrite dom_singleton_L. by apply elem_of_singleton.
Defined.
